(** * RingBuffer: the circular byte buffer of AudioMirror

    A shallow embedding of [AudioMirror/RingBuffer.cpp] and
    [AudioMirror/RingBuffer.h], followed by the properties of the buffer
    that its specification states.

    Conventions of the embedding.
    - [SIZE_T] and [ULONGLONG] are the 64-bit unsigned integers of an x64
      kernel build; they are values of [Z] and every addition and
      subtraction of the source is written with its wrap-around
      ([add64], [sub64]).
    - A [BYTE*] is a list of bytes together with an offset; [NULL] is
      [None].  [RtlCopyMemory] is a block update of the destination list.
    - A function of the class takes the object as its last argument and
      returns an [outcome]: it returns normally with a value and the new
      object, it faults (a [NULL] access or a division by zero, a bug check
      in the kernel), or it never returns (it spins on a lock that is held,
      or a loop does not end).
    - The kernel pool is an argument: [Init] receives what the two
      allocations answer. *)

From Stdlib Require Import ZArith Lia.
From Stdlib.Strings Require Import Byte.
From stdpp Require Import base list.

Open Scope Z_scope.

(** ** Machine integers *)

Definition two64 : Z := 2 ^ 64.

Definition add64 (a b : Z) : Z := (a + b) mod two64.
Definition sub64 (a b : Z) : Z := (a - b) mod two64.

(** The range of a [SIZE_T] or [ULONGLONG] value. *)
Definition is_u64 (z : Z) : Prop := 0 <= z < two64.

(** ** Status codes *)

Inductive NTSTATUS : Set :=
| STATUS_SUCCESS
| STATUS_INSUFFICIENT_RESOURCES
| STATUS_BUFFER_TOO_SMALL
| STATUS_BUFFER_OVERFLOW
| STATUS_DEVICE_NOT_READY.

(** The numeric codes of [ntstatus.h]; the two top bits are the severity. *)
Definition NTSTATUS_code (st : NTSTATUS) : Z :=
  match st with
  | STATUS_SUCCESS => 0x00000000
  | STATUS_INSUFFICIENT_RESOURCES => 0xC000009A
  | STATUS_BUFFER_TOO_SMALL => 0xC0000023
  | STATUS_BUFFER_OVERFLOW => 0x80000005
  | STATUS_DEVICE_NOT_READY => 0xC00000A3
  end.

(** [NT_ERROR]: severity 3. *)
Definition NT_ERROR (st : NTSTATUS) : bool :=
  Z.shiftr (NTSTATUS_code st) 30 =? 3.

(** ** Outcomes *)

Inductive outcome (A : Type) : Type :=
| Ret (a : A)
| Fault
| Hang.
Arguments Ret {A} a.
Arguments Fault {A}.
Arguments Hang {A}.

Definition bind {A B : Type} (m : outcome A) (k : A -> outcome B) : outcome B :=
  match m with
  | Ret a => k a
  | Fault => Fault
  | Hang => Hang
  end.

Notation "'do' x <- m ; k" := (bind m (fun x => k))
  (at level 10, x name, m at level 100, k at level 200).

(** ** The object *)

(** [m_BufferLock] points to a spin lock or is [NULL]; the lock itself is
    the flag that says whether it is held.  [m_SpinLockIrql] only stores the
    interrupt level to restore and is left out. *)
Record RingBuffer : Type := mkRingBuffer {
  m_BufferLock : option bool;
  m_Buffer : option (list byte);
  m_BufferLength : Z;
  m_IsFilling : bool;
  m_LinearBufferReadPosition : Z;
  m_LinearBufferWritePosition : Z
}.

Definition set_BufferLock (v : option bool) (s : RingBuffer) : RingBuffer :=
  mkRingBuffer v (m_Buffer s) (m_BufferLength s) (m_IsFilling s)
    (m_LinearBufferReadPosition s) (m_LinearBufferWritePosition s).

Definition set_Buffer (v : option (list byte)) (s : RingBuffer) : RingBuffer :=
  mkRingBuffer (m_BufferLock s) v (m_BufferLength s) (m_IsFilling s)
    (m_LinearBufferReadPosition s) (m_LinearBufferWritePosition s).

Definition set_BufferLength (v : Z) (s : RingBuffer) : RingBuffer :=
  mkRingBuffer (m_BufferLock s) (m_Buffer s) v (m_IsFilling s)
    (m_LinearBufferReadPosition s) (m_LinearBufferWritePosition s).

Definition set_IsFilling (v : bool) (s : RingBuffer) : RingBuffer :=
  mkRingBuffer (m_BufferLock s) (m_Buffer s) (m_BufferLength s) v
    (m_LinearBufferReadPosition s) (m_LinearBufferWritePosition s).

Definition set_ReadPosition (v : Z) (s : RingBuffer) : RingBuffer :=
  mkRingBuffer (m_BufferLock s) (m_Buffer s) (m_BufferLength s) (m_IsFilling s)
    v (m_LinearBufferWritePosition s).

Definition set_WritePosition (v : Z) (s : RingBuffer) : RingBuffer :=
  mkRingBuffer (m_BufferLock s) (m_Buffer s) (m_BufferLength s) (m_IsFilling s)
    (m_LinearBufferReadPosition s) v.

(** ** Kernel primitives *)

(** [KeAcquireSpinLock]: spins while the lock is held. *)
Definition KeAcquireSpinLock (s : RingBuffer) : outcome RingBuffer :=
  match m_BufferLock s with
  | None => Fault
  | Some true => Hang
  | Some false => Ret (set_BufferLock (Some true) s)
  end.

Definition KeReleaseSpinLock (s : RingBuffer) : outcome RingBuffer :=
  match m_BufferLock s with
  | None => Fault
  | Some _ => Ret (set_BufferLock (Some false) s)
  end.

(** [RtlCopyMemory (dst + doff, src + soff, n)]. *)
Definition RtlCopyMemory (dst : list byte) (doff : Z) (src : list byte) (soff n : Z)
  : list byte :=
  list_inserts (Z.to_nat doff) (take (Z.to_nat n) (drop (Z.to_nat soff) src)) dst.

(** [RtlZeroMemory (dst, n)]. *)
Definition RtlZeroMemory (dst : list byte) (n : Z) : list byte :=
  list_inserts 0 (replicate (Z.to_nat n) x00) dst.

(** ** RingBuffer::RingBuffer

    The initialiser list does not mention [m_BufferLock]: its value is
    whatever the memory of the object holds, the argument [lock0]. *)
Definition RingBuffer_ctor (lock0 : option bool) : RingBuffer :=
  mkRingBuffer lock0 None 0 true 0 0.

(** ** RingBuffer::~RingBuffer *)
Definition RingBuffer_dtor (s : RingBuffer) : outcome RingBuffer :=
  do s3 <- (match m_Buffer s with
            | Some _ =>
                do s1 <- KeAcquireSpinLock s ;
                let s2 := set_BufferLength 0 (set_Buffer None s1) in
                KeReleaseSpinLock s2
            | None => Ret s
            end) ;
  match m_BufferLock s3 with
  | Some _ => Ret (set_BufferLock None s3)
  | None => Ret s3
  end.

(** ** RingBuffer::Init

    [newLock] is the answer of the allocation of the lock ([true]: a lock
    was allocated), [pool] the answer of [ExAllocatePoolWithTag]: [None] or
    a block, whose content is not initialised.  The second component of the
    result is the block that was given back to the pool, if any. *)
Definition Init (bufferSize : Z) (newLock : bool) (pool : option (list byte))
  (s : RingBuffer) : outcome (NTSTATUS * option (list byte) * RingBuffer) :=
  match
    (match m_BufferLock s with
     | None =>
         if newLock then inr (set_BufferLock (Some false) s)
         else inl STATUS_INSUFFICIENT_RESOURCES
     | Some _ => inr s
     end)
  with
  | inl st => Ret (st, None, s)
  | inr s1 =>
      do r <- (match m_Buffer s1 with
            | Some old =>
                do s2 <- KeAcquireSpinLock s1 ;
                do s3 <- KeReleaseSpinLock (set_Buffer None s2) ;
                Ret (Some old, s3)
            | None => Ret (None, s1)
            end) ;
      let '(freed, s4) := r in
      do s5 <- KeAcquireSpinLock s4 ;
      let s6 := set_Buffer pool s5 in
      match pool with
      | None =>
          do s7 <- KeReleaseSpinLock s6 ;
          Ret (STATUS_INSUFFICIENT_RESOURCES, freed, s7)
      | Some _ =>
          let s7 := set_BufferLength bufferSize s6 in
          let s8 := set_WritePosition 0 s7 in
          let s9 := set_ReadPosition 0 s8 in
          let s10 := set_IsFilling true s9 in
          do s11 <- KeReleaseSpinLock s10 ;
          Ret (STATUS_SUCCESS, freed, s11)
      end
  end.

(** ** RingBuffer::Put *)

(** The copy loop of [Put] (lines 80 to 87).  Every run reads from [pBytes]
    itself: the source pointer is not moved between the runs.  [None]: the
    fuel ran out before [count] reached 0. *)
Fixpoint Put_loop (fuel : nat) (len : Z) (pBytes buf : list byte)
  (bufferOffset count bytesWritten : Z) : option (list byte * Z) :=
  if count >? 0 then
    match fuel with
    | O => None
    | S fuel' =>
        let runWrite := Z.min count (sub64 len bufferOffset) in
        let buf' := RtlCopyMemory buf bufferOffset pBytes 0 runWrite in
        Put_loop fuel' len pBytes buf'
          (add64 bufferOffset runWrite mod len)
          (sub64 count runWrite)
          (add64 bytesWritten runWrite)
    end
  else Some (buf, bytesWritten).

(** [Put] does not touch the lock. *)
Definition Put (pBytes : list byte) (count : Z) (s : RingBuffer)
  : outcome (NTSTATUS * RingBuffer) :=
  if count >? m_BufferLength s then Ret (STATUS_BUFFER_TOO_SMALL, s)
  else if count =? 0 then Ret (STATUS_SUCCESS, s)
  else
    let overrun :=
      sub64 (add64 (m_LinearBufferWritePosition s) count)
            (m_LinearBufferReadPosition s) >? m_BufferLength s in
    let status := if overrun then STATUS_BUFFER_OVERFLOW else STATUS_SUCCESS in
    let s1 :=
      if overrun then
        set_ReadPosition
          (add64 (sub64 (add64 (m_LinearBufferWritePosition s) count)
                        (m_BufferLength s)) 1) s
      else s in
    if m_BufferLength s1 =? 0 then Fault
    else
      let bufferOffset := m_LinearBufferWritePosition s1 mod m_BufferLength s1 in
      match m_Buffer s1 with
      | None => Fault
      | Some buf =>
          match Put_loop (Z.to_nat count) (m_BufferLength s1) pBytes buf
                  bufferOffset count 0 with
          | None => Hang
          | Some (buf', bytesWritten) =>
              let s2 := set_Buffer (Some buf') s1 in
              let s3 :=
                set_WritePosition
                  (add64 (m_LinearBufferWritePosition s2) bytesWritten) s2 in
              let s4 :=
                if m_IsFilling s3 &&
                   (sub64 (m_LinearBufferWritePosition s3)
                          (m_LinearBufferReadPosition s3)
                    >? m_BufferLength s3 / 2)
                then set_IsFilling false s3
                else s3 in
              Ret (status, s4)
          end
      end.

(** ** RingBuffer::Take *)

(** The copy loop of [Take] (lines 115 to 122): the run is written at
    [pTarget + bytesRead]. *)
Fixpoint Take_loop (fuel : nat) (len : Z) (buf pTarget : list byte)
  (bufferOffset count bytesRead : Z) : option (list byte * Z) :=
  if count >? 0 then
    match fuel with
    | O => None
    | S fuel' =>
        let runWrite := Z.min count (sub64 len bufferOffset) in
        let pTarget' := RtlCopyMemory pTarget bytesRead buf bufferOffset runWrite in
        Take_loop fuel' len buf pTarget'
          (add64 bufferOffset runWrite mod len)
          (sub64 count runWrite)
          (add64 bytesRead runWrite)
    end
  else Some (pTarget, bytesRead).

(** What [Take] gives back to its caller: the status, the target memory and
    the cell [readCount] points to ([None] for a [NULL] pointer). *)
Record TakeResult : Type := mkTakeResult {
  take_status : NTSTATUS;
  take_target : list byte;
  take_readCount : option Z
}.

(** Lines 100 to 122: the lock is taken, the gate is tested and the bytes
    are copied.  [inl]: the function has returned (the buffer is filling);
    [inr]: the target and [bytesRead] after the loop, the lock still
    held. *)
Definition Take_copy (pTarget : list byte) (count : Z) (readCount : option Z)
  (s : RingBuffer) : outcome ((TakeResult + list byte * Z) * RingBuffer) :=
  do s1 <- KeAcquireSpinLock s ;
  if m_IsFilling s1 then
    let readCount' := match readCount with Some _ => Some 0 | None => None end in
    do s2 <- KeReleaseSpinLock s1 ;
    Ret (inl (mkTakeResult STATUS_DEVICE_NOT_READY pTarget readCount'), s2)
  else
    let count1 :=
      Z.min count (sub64 (m_LinearBufferWritePosition s1)
                         (m_LinearBufferReadPosition s1)) in
    if m_BufferLength s1 =? 0 then Fault
    else
      let bufferOffset := m_LinearBufferReadPosition s1 mod m_BufferLength s1 in
      if count1 >? 0 then
        match m_Buffer s1 with
        | None => Fault
        | Some buf =>
            match Take_loop (Z.to_nat count1) (m_BufferLength s1) buf pTarget
                    bufferOffset count1 0 with
            | None => Hang
            | Some r => Ret (inr r, s1)
            end
        end
      else Ret (inr (pTarget, 0), s1).

(** Lines 123 to 135: the count is reported, the read position moves, the
    gate closes on an empty buffer and the lock is released. *)
Definition Take_commit (pTarget' : list byte) (bytesRead : Z) (readCount : option Z)
  (s1 : RingBuffer) : outcome (TakeResult * RingBuffer) :=
  let readCount' := match readCount with Some _ => Some bytesRead | None => None end in
  let s2 :=
    set_ReadPosition (add64 (m_LinearBufferReadPosition s1) bytesRead) s1 in
  let s3 :=
    if sub64 (m_LinearBufferWritePosition s2) (m_LinearBufferReadPosition s2) =? 0
    then set_IsFilling true s2
    else s2 in
  do s4 <- KeReleaseSpinLock s3 ;
  Ret (mkTakeResult STATUS_SUCCESS pTarget' readCount', s4).

Definition Take (pTarget : list byte) (count : Z) (readCount : option Z)
  (s : RingBuffer) : outcome (TakeResult * RingBuffer) :=
  do r <- Take_copy pTarget count readCount s ;
  match r with
  | (inl res, s2) => Ret (res, s2)
  | (inr (pTarget', bytesRead), s1) => Take_commit pTarget' bytesRead readCount s1
  end.

(** ** RingBuffer::GetSize, GetAvailableBytes, Clear *)

Definition GetSize (s : RingBuffer) : Z := m_BufferLength s.

Definition GetAvailableBytes (s : RingBuffer) : Z :=
  if m_IsFilling s then 0
  else sub64 (m_LinearBufferWritePosition s) (m_LinearBufferReadPosition s).

Definition Clear (s : RingBuffer) : outcome RingBuffer :=
  do s1 <- KeAcquireSpinLock s ;
  do s2 <- (match m_Buffer s1 with
         | Some buf => Ret (set_Buffer (Some (RtlZeroMemory buf (m_BufferLength s1))) s1)
         | None => if m_BufferLength s1 =? 0 then Ret s1 else Fault
         end) ;
  let s3 := set_IsFilling true s2 in
  let s4 := set_ReadPosition 0 s3 in
  let s5 := set_WritePosition 0 s4 in
  KeReleaseSpinLock s5.

(** * Notions for the properties *)

(** ** The effect of the copy loops *)

(** What the loop of [Put] leaves in the storage: [run1] bytes of the
    source at [off], and, when the write wraps, [count - run1] bytes at the
    start, read again from the beginning of the source. *)
Definition Put_image (len : Z) (pBytes buf : list byte) (off count : Z) : list byte :=
  let run1 := Z.min count (len - off) in
  RtlCopyMemory (RtlCopyMemory buf off pBytes 0 run1) 0 pBytes 0 (count - run1).

(** What the loop of [Take] leaves in the target. *)
Definition Take_image (len : Z) (buf pTarget : list byte) (off count : Z) : list byte :=
  let run1 := Z.min count (len - off) in
  RtlCopyMemory (RtlCopyMemory pTarget 0 buf off run1) run1 buf 0 (count - run1).

(** ** Positions and states *)

(** The number of unread bytes, as an integer. *)
Definition unread (s : RingBuffer) : Z :=
  m_LinearBufferWritePosition s - m_LinearBufferReadPosition s.

(** The read position that [Put] leaves. *)
Definition Put_ReadPosition (count : Z) (s : RingBuffer) : Z :=
  if m_BufferLength s <? m_LinearBufferWritePosition s + count - m_LinearBufferReadPosition s
  then m_LinearBufferWritePosition s + count - m_BufferLength s + 1
  else m_LinearBufferReadPosition s.

(** [Init]: the lock is there and free, or it is allocated by this call. *)
Definition lock_available (newLock : bool) (s : RingBuffer) : Prop :=
  m_BufferLock s = Some false \/ (m_BufferLock s = None /\ newLock = true).

(** What holds of the object between two calls, once [Init] has succeeded:
    the lock is free, the storage has the size of the capacity, the
    positions are ordered and at most the capacity apart, and the gate
    agrees with the number of unread bytes. *)
Record well_formed (s : RingBuffer) : Prop := mk_well_formed {
  wf_lock : m_BufferLock s = Some false;
  wf_storage :
    exists buf, m_Buffer s = Some buf /\ Z.of_nat (length buf) = m_BufferLength s;
  wf_length : 0 <= m_BufferLength s < two64;
  wf_read : 0 <= m_LinearBufferReadPosition s;
  wf_order : m_LinearBufferReadPosition s <= m_LinearBufferWritePosition s;
  wf_write : m_LinearBufferWritePosition s < two64;
  wf_unread : unread s <= m_BufferLength s;
  wf_filling : m_IsFilling s = true -> unread s <= m_BufferLength s / 2;
  wf_open : m_IsFilling s = false -> 0 < m_BufferLength s;
  wf_open_unread :
    m_IsFilling s = false -> 2 <= m_BufferLength s -> 1 <= unread s
}.

(** The states of a buffer in use: the state a successful [Init] leaves,
    and the states that [Put], [Take] and [Clear] lead to from there.  The
    arguments are those the types of the source allow; the write position
    is a 64-bit counter and a run stops short of wrapping it. *)
Inductive reachable : RingBuffer -> Prop :=
| reach_Init s0 bufferSize newLock block freed s :
    is_u64 bufferSize ->
    Z.of_nat (length block) = bufferSize ->
    Init bufferSize newLock (Some block) s0 = Ret (STATUS_SUCCESS, freed, s) ->
    reachable s
| reach_Put s pBytes count st s' :
    reachable s ->
    is_u64 count ->
    m_LinearBufferWritePosition s + count < two64 ->
    Put pBytes count s = Ret (st, s') ->
    reachable s'
| reach_Take s pTarget count readCount res s' :
    reachable s ->
    is_u64 count ->
    Take pTarget count readCount s = Ret (res, s') ->
    reachable s'
| reach_Clear s s' :
    reachable s ->
    Clear s = Ret s' ->
    reachable s'.

(** The unread bytes in the order of their positions: the storage read
    from the offset of the read position, around the end. *)
Definition unread_bytes (s : RingBuffer) : list byte :=
  match m_Buffer s with
  | Some buf =>
      take (Z.to_nat (unread s))
        (rotate (Z.to_nat (m_LinearBufferReadPosition s mod m_BufferLength s)) buf)
  | None => []
  end.

(** ** Sample data *)

(** The bytes [first], [first + 1], ..., [count] of them. *)
Definition sample (first count : nat) : list byte :=
  map (fun k => default x00 (Byte.of_nat k)) (seq first count).

(** A block of the pool: its content is whatever was there. *)
Definition pool_block (size : nat) : list byte := replicate size xcd.

(** The buffer that [Init] leaves. *)
Definition ready (capacity : nat) : RingBuffer :=
  mkRingBuffer (Some false) (Some (pool_block capacity)) (Z.of_nat capacity) true 0 0.

(** A buffer of capacity 100 after a [Put] of 60 bytes: the gate is open. *)
Definition open60 : RingBuffer :=
  mkRingBuffer (Some false)
    (Some (sample 0 60 ++ replicate 40 xcd)) 100 false 0 60.

(** The buffer of capacity 1 after a [Put] of one byte. *)
Definition full1 : RingBuffer :=
  mkRingBuffer (Some false) (Some (sample 0 1)) 1 false 0 1.

(** The same buffer after one more [Put] of one byte. *)
Definition overrun1 : RingBuffer :=
  mkRingBuffer (Some false) (Some (sample 1 1)) 1 false 2 2.

(** Capacity 4, three bytes unread at the offsets 0 to 2. *)
Definition three_of_4 : RingBuffer :=
  mkRingBuffer (Some false) (Some (sample 1 3 ++ [xcd])) 4 false 0 3.

(** Capacity 4, four bytes unread. *)
Definition full4 : RingBuffer :=
  mkRingBuffer (Some false) (Some (sample 1 4)) 4 false 0 4.

(** ** Sequences of calls *)

(** A call of [Put] with its bytes, their number being the count, or a call
    of [Take]. *)
Inductive call : Type :=
| CallPut (pBytes : list byte)
| CallTake (pTarget : list byte) (count : Z) (readCount : option Z).

(** The bytes a [Take] has moved to its target. *)
Definition taken_by (before after : RingBuffer) (res : TakeResult) : list byte :=
  take (Z.to_nat (m_LinearBufferReadPosition after - m_LinearBufferReadPosition before))
    (take_target res).

(** A sequence of calls; the result is the bytes taken, in the order of the
    calls, and the final object. *)
Fixpoint run (calls : list call) (s : RingBuffer) : outcome (list byte * RingBuffer) :=
  match calls with
  | [] => Ret ([], s)
  | CallPut pBytes :: rest =>
      do r <- Put pBytes (Z.of_nat (length pBytes)) s ;
      run rest (snd r)
  | CallTake pTarget count readCount :: rest =>
      do r <- Take pTarget count readCount s ;
      do r' <- run rest (snd r) ;
      Ret (taken_by s (snd r) (fst r) ++ fst r', snd r')
  end.

(** The bytes put by a sequence of calls, in the order of the calls. *)
Fixpoint put_stream (calls : list call) : list byte :=
  match calls with
  | [] => []
  | CallPut pBytes :: rest => pBytes ++ put_stream rest
  | CallTake _ _ _ :: rest => put_stream rest
  end.

(** The targets have room for what is asked. *)
Fixpoint targets_fit (calls : list call) : Prop :=
  match calls with
  | [] => True
  | CallPut _ :: rest => targets_fit rest
  | CallTake pTarget count _ :: rest =>
      is_u64 count /\ count <= Z.of_nat (length pTarget) /\ targets_fit rest
  end.

(** The storage holds the bytes put so far, from its start. *)
Record linear (s : RingBuffer) (puts : list byte) : Prop := mk_linear {
  lin_wf : well_formed s;
  lin_write : m_LinearBufferWritePosition s = Z.of_nat (length puts);
  lin_fit : m_LinearBufferWritePosition s <= m_BufferLength s;
  lin_storage : exists buf, m_Buffer s = Some buf /\ take (length puts) buf = puts
}.

(** ** Notions for the further properties *)

(** What the loop of [Put] reads from the source: the bytes of the first
    run, then, for a second run, the bytes of the source from its start. *)
Definition Put_source (len off : Z) (pBytes : list byte) (count : Z) : list byte :=
  take (Z.to_nat (Z.min count (len - off))) pBytes ++
  take (Z.to_nat (count - Z.min count (len - off))) pBytes.

(** Capacity 4 after [Put]s of 3, 1 and 1 bytes and a [Take] of 3: the two
    unread bytes lie at the offsets 3 and 0. *)
Definition wrapped4 : RingBuffer :=
  mkRingBuffer (Some false) (Some [x05; x02; x03; x04]) 4 true 3 5.

(** The same buffer after a [Put] of the bytes 6 and 7: full, gate open. *)
Definition wrapped4_open : RingBuffer :=
  mkRingBuffer (Some false) (Some [x05; x06; x07; x04]) 4 false 3 7.

(** Capacity 4 after a [Put] and a [Take] of three bytes. *)
Definition drained4 : RingBuffer :=
  mkRingBuffer (Some false) (Some (sample 1 3 ++ [xcd])) 4 true 3 3.

(** Capacity 100 after a [Put] of 100 bytes. *)
Definition full100 : RingBuffer :=
  mkRingBuffer (Some false) (Some (sample 0 100)) 100 false 0 100.

(** A sequence of calls in which no [Put] overruns, no [Put] reaches beyond
    the end of the storage or wraps the write counter, and every target
    has room for the count asked. *)
Fixpoint smooth (calls : list call) (s : RingBuffer) : Prop :=
  match calls with
  | [] => True
  | CallPut pBytes :: rest =>
      (pBytes <> [] ->
       unread s + Z.of_nat (length pBytes) <= m_BufferLength s /\
       m_LinearBufferWritePosition s mod m_BufferLength s + Z.of_nat (length pBytes)
         <= m_BufferLength s /\
       m_LinearBufferWritePosition s + Z.of_nat (length pBytes) < two64) /\
      (forall st s', Put pBytes (Z.of_nat (length pBytes)) s = Ret (st, s') ->
                     smooth rest s')
  | CallTake pTarget count readCount :: rest =>
      is_u64 count /\ count <= Z.of_nat (length pTarget) /\
      (forall res s', Take pTarget count readCount s = Ret (res, s') ->
                      smooth rest s')
  end.

(** Seven bytes through a buffer of capacity 4. *)
Definition smooth_run : list call :=
  [CallPut (sample 1 3); CallTake (pool_block 3) 3 (Some 0);
   CallPut [x04]; CallPut [x05]; CallPut [x06; x07];
   CallTake (pool_block 4) 4 (Some 0)].

(** The buffer [open60] after a [Take] of 80 bytes, and what that [Take]
    gives back for a target of 80 bytes. *)
Definition drained100 : RingBuffer :=
  mkRingBuffer (Some false) (Some (sample 0 60 ++ replicate 40 xcd)) 100 true 60 60.

Definition taken60 : TakeResult :=
  mkTakeResult STATUS_SUCCESS (sample 0 60 ++ pool_block 20) (Some 60).

(** * Properties *)

(** ** Arithmetic on 64 bits *)

Lemma add64_small a b : 0 <= a + b < two64 -> add64 a b = a + b.
Proof. intros H. unfold add64. apply Z.mod_small, H. Qed.

Lemma sub64_small a b : 0 <= a - b < two64 -> sub64 a b = a - b.
Proof. intros H. unfold sub64. apply Z.mod_small, H. Qed.

Lemma sub64_diag a : sub64 a a = 0.
Proof. unfold sub64. rewrite Z.sub_diag. reflexivity. Qed.

Lemma gtb_true a b : b < a -> (a >? b) = true.
Proof. intros H. destruct (Z.gtb_spec a b); [reflexivity | lia]. Qed.

Lemma gtb_false a b : a <= b -> (a >? b) = false.
Proof. intros H. destruct (Z.gtb_spec a b); [lia | reflexivity]. Qed.

(** ** The memory primitives *)

Lemma RtlCopyMemory_length dst doff src soff n :
  length (RtlCopyMemory dst doff src soff n) = length dst.
Proof. unfold RtlCopyMemory. apply length_inserts. Qed.

Lemma RtlCopyMemory_zero dst doff src soff : RtlCopyMemory dst doff src soff 0 = dst.
Proof. reflexivity. Qed.

Lemma RtlZeroMemory_length dst n : length (RtlZeroMemory dst n) = length dst.
Proof. unfold RtlZeroMemory. apply length_inserts. Qed.

(** ** The copy loops

    Inside [Put] and [Take] the offset is a remainder modulo the capacity
    and the count is at most the capacity: a loop makes one run, or two
    when the run reaches the end of the storage. *)

Lemma Put_loop_exit fuel len pBytes buf off written :
  Put_loop fuel len pBytes buf off 0 written = Some (buf, written).
Proof. destruct fuel; reflexivity. Qed.

Lemma Put_loop_step fuel len pBytes buf off count written :
  0 < count ->
  Put_loop (S fuel) len pBytes buf off count written =
  Put_loop fuel len pBytes
    (RtlCopyMemory buf off pBytes 0 (Z.min count (sub64 len off)))
    (add64 off (Z.min count (sub64 len off)) mod len)
    (sub64 count (Z.min count (sub64 len off)))
    (add64 written (Z.min count (sub64 len off))).
Proof. intros H. cbn [Put_loop]. rewrite gtb_true by lia. reflexivity. Qed.

Lemma Take_loop_exit fuel len buf pTarget off bytesRead :
  Take_loop fuel len buf pTarget off 0 bytesRead = Some (pTarget, bytesRead).
Proof. destruct fuel; reflexivity. Qed.

Lemma Take_loop_step fuel len buf pTarget off count bytesRead :
  0 < count ->
  Take_loop (S fuel) len buf pTarget off count bytesRead =
  Take_loop fuel len buf
    (RtlCopyMemory pTarget bytesRead buf off (Z.min count (sub64 len off)))
    (add64 off (Z.min count (sub64 len off)) mod len)
    (sub64 count (Z.min count (sub64 len off)))
    (add64 bytesRead (Z.min count (sub64 len off))).
Proof. intros H. cbn [Take_loop]. rewrite gtb_true by lia. reflexivity. Qed.

Ltac u64 := unfold is_u64, two64 in *; lia.

(** The arithmetic of one run, with the offset inside the storage. *)
Ltac run_arith :=
  repeat first
    [ rewrite sub64_diag
    | rewrite Z.sub_diag
    | rewrite Z_mod_same_full
    | rewrite add64_small by u64
    | rewrite sub64_small by u64
    | rewrite Z.sub_0_r
    | rewrite Z.add_0_l ].

Section CopyLoops.

Variables len off count : Z.
Hypothesis offset_in_storage : 0 <= off < len.
Hypothesis capacity_u64 : len < two64.
Hypothesis count_in_capacity : 0 < count <= len.

Lemma Put_loop_spec pBytes buf :
  Put_loop (Z.to_nat count) len pBytes buf off count 0 =
  Some (Put_image len pBytes buf off count, count).
Proof.
  unfold Put_image.
  destruct (Z.to_nat count) as [|k] eqn:Hk; [lia|].
  rewrite Put_loop_step by lia.
  rewrite (sub64_small len off) by u64.
  destruct (Z.le_gt_cases count (len - off)) as [Hfit | Hwrap].
  - rewrite !Z.min_l by lia. run_arith.
    rewrite Put_loop_exit, RtlCopyMemory_zero. reflexivity.
  - rewrite !Z.min_r by lia.
    destruct k as [|k]; [lia|].
    replace (add64 off (len - off)) with len
      by (rewrite add64_small by u64; lia).
    rewrite Z_mod_same_full.
    rewrite (sub64_small count) by u64.
    rewrite Put_loop_step by lia.
    rewrite (sub64_small len 0) by u64.
    rewrite Z.sub_0_r, !Z.min_l by lia. run_arith.
    rewrite Put_loop_exit. do 2 f_equal.
    rewrite (add64_small 0) by u64. rewrite add64_small by u64. lia.
Qed.

Lemma Take_loop_spec buf pTarget :
  Take_loop (Z.to_nat count) len buf pTarget off count 0 =
  Some (Take_image len buf pTarget off count, count).
Proof.
  unfold Take_image.
  destruct (Z.to_nat count) as [|k] eqn:Hk; [lia|].
  rewrite Take_loop_step by lia.
  rewrite (sub64_small len off) by u64.
  destruct (Z.le_gt_cases count (len - off)) as [Hfit | Hwrap].
  - rewrite !Z.min_l by lia. run_arith.
    rewrite Take_loop_exit, RtlCopyMemory_zero. reflexivity.
  - rewrite !Z.min_r by lia.
    destruct k as [|k]; [lia|].
    replace (add64 off (len - off)) with len
      by (rewrite add64_small by u64; lia).
    rewrite Z_mod_same_full.
    rewrite (sub64_small count) by u64.
    rewrite Take_loop_step by lia.
    rewrite (sub64_small len 0) by u64.
    rewrite Z.sub_0_r, !Z.min_l by lia. run_arith.
    rewrite Take_loop_exit. do 2 f_equal. lia.
Qed.

End CopyLoops.

(** The fuel that [Put] and [Take] give to their loops is enough, at every
    offset inside the storage: each run moves at least one byte. *)
Lemma Put_loop_terminates fuel : forall len pBytes buf off count written,
  0 <= off < len -> len < two64 -> is_u64 count ->
  (Z.to_nat count <= fuel)%nat ->
  Put_loop fuel len pBytes buf off count written <> None.
Proof.
  induction fuel as [|fuel IH]; intros len pBytes buf off count written Hoff Hlen Hcount Hfuel.
  - replace count with 0 by u64. rewrite Put_loop_exit. discriminate.
  - destruct (Z.eq_dec count 0) as [-> | Hnz].
    + rewrite Put_loop_exit. discriminate.
    + rewrite Put_loop_step by u64.
      rewrite (sub64_small len off) by u64.
      rewrite (sub64_small count) by u64.
      apply IH; [apply Z.mod_pos_bound; lia | exact Hlen | u64 | lia].
Qed.

Lemma Take_loop_terminates fuel : forall len buf pTarget off count bytesRead,
  0 <= off < len -> len < two64 -> is_u64 count ->
  (Z.to_nat count <= fuel)%nat ->
  Take_loop fuel len buf pTarget off count bytesRead <> None.
Proof.
  induction fuel as [|fuel IH]; intros len buf pTarget off count bytesRead Hoff Hlen Hcount Hfuel.
  - replace count with 0 by u64. rewrite Take_loop_exit. discriminate.
  - destruct (Z.eq_dec count 0) as [-> | Hnz].
    + rewrite Take_loop_exit. discriminate.
    + rewrite Take_loop_step by u64.
      rewrite (sub64_small len off) by u64.
      rewrite (sub64_small count) by u64.
      apply IH; [apply Z.mod_pos_bound; lia | exact Hlen | u64 | lia].
Qed.

(** ** What one call does *)

(** Reading a field of an updated object. *)
Ltac fields :=
  cbn [m_BufferLock m_Buffer m_BufferLength m_IsFilling
       m_LinearBufferReadPosition m_LinearBufferWritePosition
       set_BufferLock set_Buffer set_BufferLength set_IsFilling
       set_ReadPosition set_WritePosition bind] in *.

(** [Put] with a count between 1 and the capacity, as long as the write
    position stays below [2^64]. *)
Lemma Put_returns s buf pBytes count :
  m_Buffer s = Some buf ->
  0 < count <= m_BufferLength s -> m_BufferLength s < two64 ->
  0 <= m_LinearBufferReadPosition s <= m_LinearBufferWritePosition s ->
  m_LinearBufferWritePosition s + count < two64 ->
  Put pBytes count s =
  Ret (if m_BufferLength s <? unread s + count
       then STATUS_BUFFER_OVERFLOW else STATUS_SUCCESS,
       mkRingBuffer (m_BufferLock s)
         (Some (Put_image (m_BufferLength s) pBytes buf
                  (m_LinearBufferWritePosition s mod m_BufferLength s) count))
         (m_BufferLength s)
         (if m_IsFilling s &&
             (m_BufferLength s / 2 <?
              m_LinearBufferWritePosition s + count - Put_ReadPosition count s)
          then false else m_IsFilling s)
         (Put_ReadPosition count s)
         (m_LinearBufferWritePosition s + count)).
Proof.
  destruct s as [lock sto len fill r w]; fields; unfold unread, Put_ReadPosition; fields.
  intros -> Hcount Hlen Hpos Hw.
  unfold Put; fields.
  rewrite (gtb_false count len) by lia.
  destruct (Z.eqb_spec count 0) as [|_]; [lia|].
  rewrite (add64_small w count) by u64.
  rewrite (sub64_small (w + count) r) by u64.
  assert (Hoff : 0 <= w mod len < len) by (apply Z.mod_pos_bound; lia).
  replace (w - r + count) with (w + count - r) by lia.
  rewrite Z.gtb_ltb.
  destruct (Z.ltb_spec len (w + count - r)) as [Hover | Hroom];
    fields;
    (destruct (Z.eqb_spec len 0) as [|_]; [lia|]);
    rewrite Put_loop_spec by lia;
    fields;
    rewrite (add64_small w count) by u64.
  - rewrite (sub64_small (w + count) len) by u64.
    rewrite (add64_small (w + count - len) 1) by u64.
    rewrite (sub64_small (w + count)) by u64.
    rewrite Z.gtb_ltb. destruct fill; cbn [andb];
      [destruct (_ <? _)|]; reflexivity.
  - rewrite (sub64_small (w + count) r) by u64.
    rewrite Z.gtb_ltb. destruct fill; cbn [andb];
      [destruct (_ <? _)|]; reflexivity.
Qed.

(** [Put] returns or faults, whatever the state: its loop ends. *)
Lemma Put_terminates s pBytes count :
  is_u64 count -> is_u64 (m_BufferLength s) ->
  Put pBytes count s <> Hang.
Proof.
  intros Hcount Hlen. unfold Put.
  destruct (Z.gtb_spec count (m_BufferLength s)); [discriminate|].
  destruct (Z.eqb_spec count 0); [discriminate|].
  match goal with
  | |- context [set_ReadPosition ?v s] =>
      assert (Hlen1 : forall b : bool,
                m_BufferLength (if b then set_ReadPosition v s else s) =
                m_BufferLength s) by (intros []; reflexivity);
      assert (Hbuf1 : forall b : bool,
                m_Buffer (if b then set_ReadPosition v s else s) = m_Buffer s)
        by (intros []; reflexivity)
  end.
  rewrite !Hlen1, Hbuf1.
  destruct (Z.eqb_spec (m_BufferLength s) 0); [discriminate|].
  destruct (m_Buffer s) as [buf|]; [|discriminate].
  match goal with
  | |- context [Put_loop ?f ?l ?p ?b ?o ?c ?w] =>
      pose proof (Put_loop_terminates f l p b o c w) as Hloop;
      destruct (Put_loop f l p b o c w) as [[buf' written]|]
  end.
  - discriminate.
  - exfalso. apply Hloop; [apply Z.mod_pos_bound; u64 | u64 | exact Hcount | lia |
      reflexivity].
Qed.

(** The two early returns of [Put]. *)
Lemma Put_too_small s pBytes count :
  m_BufferLength s < count ->
  Put pBytes count s = Ret (STATUS_BUFFER_TOO_SMALL, s).
Proof. intros H. unfold Put. rewrite gtb_true by lia. reflexivity. Qed.

Lemma Put_nothing s pBytes :
  0 <= m_BufferLength s ->
  Put pBytes 0 s = Ret (STATUS_SUCCESS, s).
Proof. intros H. unfold Put. rewrite gtb_false by lia. reflexivity. Qed.

Lemma lock_cycle s :
  m_BufferLock s = Some false ->
  set_BufferLock (Some false) (set_BufferLock (Some true) s) = s.
Proof. destruct s; cbn. intros ->. reflexivity. Qed.

(** [Take] while the gate is closed. *)
Lemma Take_filling s pTarget count readCount :
  m_BufferLock s = Some false -> m_IsFilling s = true ->
  Take pTarget count readCount s =
  Ret (mkTakeResult STATUS_DEVICE_NOT_READY pTarget
         (match readCount with Some _ => Some 0 | None => None end), s).
Proof.
  destruct s as [lock sto len fill r w]; fields. intros -> ->. reflexivity.
Qed.

(** [Take] while the gate is open. *)
Lemma Take_returns s buf pTarget count readCount :
  m_BufferLock s = Some false -> m_Buffer s = Some buf ->
  m_IsFilling s = false ->
  0 < m_BufferLength s < two64 ->
  0 <= m_LinearBufferReadPosition s <= m_LinearBufferWritePosition s ->
  m_LinearBufferWritePosition s < two64 ->
  unread s <= m_BufferLength s ->
  0 <= count ->
  Take pTarget count readCount s =
  Ret (mkTakeResult STATUS_SUCCESS
         (Take_image (m_BufferLength s) buf pTarget
            (m_LinearBufferReadPosition s mod m_BufferLength s)
            (Z.min count (unread s)))
         (match readCount with
          | Some _ => Some (Z.min count (unread s))
          | None => None
          end),
       mkRingBuffer (Some false) (Some buf) (m_BufferLength s)
         (unread s - Z.min count (unread s) =? 0)
         (m_LinearBufferReadPosition s + Z.min count (unread s))
         (m_LinearBufferWritePosition s)).
Proof.
  destruct s as [lock sto len fill r w]; unfold unread; fields.
  intros -> -> -> Hlen Hpos Hw Hun Hcount.
  unfold Take, Take_copy, KeAcquireSpinLock; fields.
  destruct (Z.eqb_spec len 0) as [|_]; [lia|].
  rewrite (sub64_small w r) by u64.
  assert (Hoff : 0 <= r mod len < len) by (apply Z.mod_pos_bound; lia).
  set (n := Z.min count (w - r)).
  assert (Hn : 0 <= n <= len) by lia.
  assert (Hend :
    Take_commit (Take_image len buf pTarget (r mod len) n) n readCount
      (mkRingBuffer (Some true) (Some buf) len false r w) =
    Ret (mkTakeResult STATUS_SUCCESS (Take_image len buf pTarget (r mod len) n)
           (match readCount with Some _ => Some n | None => None end),
         mkRingBuffer (Some false) (Some buf) len (w - r - n =? 0) (r + n) w)).
  { unfold Take_commit, KeReleaseSpinLock; fields.
    rewrite (add64_small r n) by u64.
    rewrite (sub64_small w (r + n)) by u64.
    replace (w - (r + n)) with (w - r - n) by lia.
    destruct (Z.eqb_spec (w - r - n) 0); reflexivity. }
  destruct (Z.gtb_spec n 0) as [Hpos' | Hzero].
  - rewrite Take_loop_spec by lia. fields. exact Hend.
  - fields. assert (n = 0) as Hn0 by lia.
    assert (Himg : Take_image len buf pTarget (r mod len) 0 = pTarget)
      by (unfold Take_image; rewrite Z.min_l by lia; reflexivity).
    rewrite Hn0 in Hend |- *. rewrite Himg in Hend |- *. exact Hend.
Qed.

(** With the lock free, [Take] returns or faults, whatever the rest of the
    state. *)
Lemma Take_commit_terminates pTarget bytesRead readCount s held :
  m_BufferLock s = Some held ->
  Take_commit pTarget bytesRead readCount s <> Hang.
Proof.
  destruct s as [lock sto len fill r w]; fields. intros ->.
  unfold Take_commit, KeReleaseSpinLock; fields.
  destruct (_ =? 0); discriminate.
Qed.

Lemma Take_terminates s pTarget count readCount :
  m_BufferLock s = Some false ->
  is_u64 count -> is_u64 (m_BufferLength s) ->
  Take pTarget count readCount s <> Hang.
Proof.
  destruct s as [lock sto len fill r w]; fields. intros -> Hcount Hlen.
  unfold Take, Take_copy, KeAcquireSpinLock; fields.
  destruct fill; [discriminate|].
  destruct (Z.eqb_spec len 0) as [|Hnz]; [discriminate|].
  set (k := Z.min count (sub64 w r)).
  assert (Hk : k <= count) by lia.
  destruct (Z.gtb_spec k 0) as [Hpos | Hzero];
    [|fields; apply (Take_commit_terminates _ _ _ _ true); reflexivity].
  destruct sto as [buf|]; [|discriminate].
  pose proof (Take_loop_terminates (Z.to_nat k) len buf pTarget (r mod len) k 0) as Hloop.
  destruct (Take_loop (Z.to_nat k) len buf pTarget (r mod len) k 0) as [[target bytesRead]|].
  - fields. apply (Take_commit_terminates _ _ _ _ true). reflexivity.
  - exfalso. apply Hloop; [apply Z.mod_pos_bound; u64 | u64 | u64 | lia | reflexivity].
Qed.

(** [Clear] on a buffer that has storage and whose lock is free. *)
Lemma Clear_returns s buf :
  m_BufferLock s = Some false -> m_Buffer s = Some buf ->
  Clear s =
  Ret (mkRingBuffer (Some false) (Some (RtlZeroMemory buf (m_BufferLength s)))
         (m_BufferLength s) true 0 0).
Proof.
  destruct s as [lock sto len fill r w]; fields. intros -> ->. reflexivity.
Qed.

Lemma Init_succeeds s bufferSize newLock block :
  lock_available newLock s ->
  Init bufferSize newLock (Some block) s =
  Ret (STATUS_SUCCESS, m_Buffer s,
       mkRingBuffer (Some false) (Some block) bufferSize true 0 0).
Proof.
  destruct s as [lock sto len fill r w]; unfold lock_available; fields.
  intros [-> | [-> ->]]; destruct sto; reflexivity.
Qed.

Lemma Init_out_of_pool s bufferSize newLock :
  lock_available newLock s ->
  Init bufferSize newLock None s =
  Ret (STATUS_INSUFFICIENT_RESOURCES, m_Buffer s,
       mkRingBuffer (Some false) None (m_BufferLength s) (m_IsFilling s)
         (m_LinearBufferReadPosition s) (m_LinearBufferWritePosition s)).
Proof.
  destruct s as [lock sto len fill r w]; unfold lock_available; fields.
  intros [-> | [-> ->]]; destruct sto; reflexivity.
Qed.

(** A call of [Init] that returns success has been given a block. *)
Lemma Init_success_inv s bufferSize newLock pool freed s' :
  Init bufferSize newLock pool s = Ret (STATUS_SUCCESS, freed, s') ->
  exists block,
    pool = Some block /\
    s' = mkRingBuffer (Some false) (Some block) bufferSize true 0 0.
Proof.
  destruct s as [[[|]|] sto len fill r w], newLock, sto, pool; cbn;
    intros H; try discriminate H; inversion H; subst; eauto.
Qed.

(** ** Buffers in use *)

Lemma Init_well_formed s0 bufferSize newLock block freed s :
  is_u64 bufferSize ->
  Z.of_nat (length block) = bufferSize ->
  Init bufferSize newLock (Some block) s0 = Ret (STATUS_SUCCESS, freed, s) ->
  well_formed s.
Proof.
  intros Hsize Hblock Hinit.
  apply Init_success_inv in Hinit as (b & [= <-] & ->).
  assert (0 <= bufferSize / 2) by (apply Z.div_pos; u64).
  split; unfold unread; fields; try discriminate; try reflexivity; try u64.
  exists block. split; [reflexivity | exact Hblock].
Qed.

Lemma Put_well_formed s pBytes count st s' :
  well_formed s ->
  is_u64 count ->
  m_LinearBufferWritePosition s + count < two64 ->
  Put pBytes count s = Ret (st, s') ->
  well_formed s'.
Proof.
  intros Hwf Hcount Hw Hput.
  destruct (Z.lt_ge_cases (m_BufferLength s) count) as [Hbig | Hfit].
  { rewrite Put_too_small in Hput by exact Hbig.
    injection Hput as _ <-. exact Hwf. }
  destruct (Z.eq_dec count 0) as [-> | Hnz].
  { rewrite Put_nothing in Hput by apply Hwf.
    injection Hput as _ <-. exact Hwf. }
  destruct Hwf as [Hlock (buf & Hbuf & Hblen) Hlen Hr Hrw Hw64 Hun Hfill Hopen Hopen1].
  rewrite (Put_returns s buf) in Hput by (auto; u64).
  injection Hput as _ <-.
  unfold unread, Put_ReadPosition in *.
  destruct s as [lock sto len fill r w]; fields.
  assert (Hlen_eq : Z.of_nat (length (Put_image len pBytes buf (w mod len) count)) = len).
  { unfold Put_image. rewrite !RtlCopyMemory_length. exact Hblen. }
  assert (Hhalf : len / 2 < len) by (apply Z.div_lt; u64).
  split; unfold unread; fields.
  - exact Hlock.
  - eexists. split; [reflexivity | exact Hlen_eq].
  - exact Hlen.
  - destruct (Z.ltb_spec len (w + count - r)); u64.
  - destruct (Z.ltb_spec len (w + count - r)); u64.
  - exact Hw.
  - destruct (Z.ltb_spec len (w + count - r)); u64.
  - destruct fill; cbn [andb].
    + destruct (Z.ltb_spec (len / 2) (w + count -
        (if len <? w + count - r then w + count - len + 1 else r)));
        [discriminate | intros _; assumption].
    + discriminate.
  - intros _. u64.
  - intros Hf Hlen2.
    destruct (Z.ltb_spec len (w + count - r)) as [Hover | Hroom]; [u64|].
    destruct fill; cbn [andb] in Hf.
    + destruct (Z.ltb_spec (len / 2) (w + count - r)) as [Hgt | Hle];
        [|discriminate Hf].
      assert (1 <= len / 2) by (apply Z.div_le_lower_bound; lia). lia.
    + specialize (Hopen1 eq_refl Hlen2). u64.
Qed.

Lemma Take_well_formed s pTarget count readCount res s' :
  well_formed s ->
  is_u64 count ->
  Take pTarget count readCount s = Ret (res, s') ->
  well_formed s'.
Proof.
  intros Hwf Hcount Htake.
  destruct (m_IsFilling s) eqn:Hgate.
  { rewrite Take_filling in Htake by (auto; apply Hwf).
    injection Htake as _ <-. exact Hwf. }
  destruct Hwf as [Hlock (buf & Hbuf & Hblen) Hlen Hr Hrw Hw64 Hun Hfill Hopen Hopen1].
  specialize (Hopen Hgate).
  rewrite (Take_returns s buf) in Htake by (auto; u64).
  injection Htake as _ <-.
  unfold unread in *.
  destruct s as [lock sto len fill r w]; fields.
  assert (0 <= len / 2) by (apply Z.div_pos; lia).
  split; unfold unread; fields; try reflexivity; try u64.
  exists buf. split; [reflexivity | exact Hblen].
Qed.

Lemma Clear_well_formed s s' :
  well_formed s -> Clear s = Ret s' -> well_formed s'.
Proof.
  intros [Hlock (buf & Hbuf & Hblen) Hlen Hr Hrw Hw64 Hun Hfill Hopen Hopen1] Hclear.
  rewrite (Clear_returns s buf) in Hclear by assumption.
  injection Hclear as <-.
  assert (0 <= m_BufferLength s / 2) by (apply Z.div_pos; lia).
  split; unfold unread; fields; try reflexivity; try discriminate; try u64.
  eexists. split; [reflexivity|]. rewrite RtlZeroMemory_length. exact Hblen.
Qed.

Create HintDb ringbuffer.
#[local] Hint Resolve Init_well_formed Put_well_formed Take_well_formed
  Clear_well_formed : ringbuffer.

Lemma reachable_well_formed s : reachable s -> well_formed s.
Proof. induction 1; eauto with ringbuffer. Qed.

(** Every call on a buffer in use returns. *)
Lemma Put_total s pBytes count :
  well_formed s -> is_u64 count ->
  m_LinearBufferWritePosition s + count < two64 ->
  exists st s', Put pBytes count s = Ret (st, s').
Proof.
  intros Hwf Hcount Hw.
  destruct (Z.lt_ge_cases (m_BufferLength s) count) as [Hbig | Hfit].
  { rewrite Put_too_small by exact Hbig. eauto. }
  destruct (Z.eq_dec count 0) as [-> | Hnz].
  { rewrite Put_nothing by apply Hwf. eauto. }
  destruct Hwf as [Hlock (buf & Hbuf & Hblen) Hlen Hr Hrw Hw64 Hun Hfill Hopen Hopen1].
  rewrite (Put_returns s buf) by (auto; u64). eauto.
Qed.

Lemma Take_total s pTarget count readCount :
  well_formed s -> is_u64 count ->
  exists res s', Take pTarget count readCount s = Ret (res, s').
Proof.
  intros Hwf Hcount.
  destruct (m_IsFilling s) eqn:Hgate.
  { rewrite Take_filling by (auto; apply Hwf). eauto. }
  destruct Hwf as [Hlock (buf & Hbuf & Hblen) Hlen Hr Hrw Hw64 Hun Hfill Hopen Hopen1].
  specialize (Hopen Hgate).
  rewrite (Take_returns s buf) by (auto; u64). eauto.
Qed.

(** On a buffer in use the subtraction of the source does not wrap. *)
Lemma unread_sub64 s :
  well_formed s ->
  sub64 (m_LinearBufferWritePosition s) (m_LinearBufferReadPosition s) = unread s.
Proof. intros Hwf. destruct Hwf. unfold unread in *. apply sub64_small. u64. Qed.

(** The gate opens when a [Put] leaves more than half the capacity unread,
    and only then. *)
Lemma Put_gate s pBytes count st s' :
  well_formed s ->
  is_u64 count ->
  m_LinearBufferWritePosition s + count < two64 ->
  Put pBytes count s = Ret (st, s') ->
  m_IsFilling s' =
  if m_BufferLength s / 2 <? unread s' then false else m_IsFilling s.
Proof.
  intros Hwf Hcount Hw Hput.
  destruct (Z.lt_ge_cases (m_BufferLength s) count) as [Hbig | Hfit];
    [rewrite Put_too_small in Hput by exact Hbig
    |destruct (Z.eq_dec count 0) as [-> | Hnz];
      [rewrite Put_nothing in Hput by apply Hwf|]].
  1,2: injection Hput as _ <-;
       destruct (m_IsFilling s) eqn:Hgate;
       [ pose proof (wf_filling s Hwf Hgate);
         destruct (Z.ltb_spec (m_BufferLength s / 2) (unread s)); [lia | reflexivity]
       | destruct (_ <? _); reflexivity ].
  destruct Hwf as [Hlock (buf & Hbuf & Hblen) Hlen Hr Hrw Hw64 Hun Hfill Hopen Hopen1].
  rewrite (Put_returns s buf) in Hput by (auto; u64).
  injection Hput as _ <-. unfold unread; fields.
  destruct (m_IsFilling s); cbn [andb]; [|destruct (_ <? _)]; reflexivity.
Qed.

(** ** The sample states *)

Lemma ready_Init capacity :
  Init (Z.of_nat capacity) true (Some (pool_block capacity)) (RingBuffer_ctor None) =
  Ret (STATUS_SUCCESS, None, ready capacity).
Proof. reflexivity. Qed.

Lemma ready_reachable capacity :
  Z.of_nat capacity < two64 -> reachable (ready capacity).
Proof.
  intros H.
  apply (reach_Init (RingBuffer_ctor None) (Z.of_nat capacity) true
           (pool_block capacity) None).
  - u64.
  - unfold pool_block. rewrite length_replicate. reflexivity.
  - apply ready_Init.
Qed.

Lemma open60_Put : Put (sample 0 60) 60 (ready 100) = Ret (STATUS_SUCCESS, open60).
Proof. vm_compute. reflexivity. Qed.

Lemma open60_reachable : reachable open60.
Proof.
  apply (reach_Put (ready 100) (sample 0 60) 60 STATUS_SUCCESS).
  - apply ready_reachable. reflexivity.
  - split; [discriminate | reflexivity].
  - reflexivity.
  - exact open60_Put.
Qed.

(** ** The properties of the specification *)

(** C7. A [Put] of more bytes than the capacity returns
    [STATUS_BUFFER_TOO_SMALL] and leaves the object as it was, whatever its
    state: positions, gate and storage are the same, and so is what
    [GetAvailableBytes] reports. *)
Theorem Put_larger_than_capacity (s : RingBuffer) (pBytes : list byte) (count : Z) :
  m_BufferLength s < count ->
  exists s',
    Put pBytes count s = Ret (STATUS_BUFFER_TOO_SMALL, s') /\
    s' = s /\
    m_LinearBufferWritePosition s' = m_LinearBufferWritePosition s /\
    m_LinearBufferReadPosition s' = m_LinearBufferReadPosition s /\
    m_IsFilling s' = m_IsFilling s /\
    m_Buffer s' = m_Buffer s /\
    GetAvailableBytes s' = GetAvailableBytes s.
Proof.
  intros Hbig. exists s. rewrite Put_too_small by exact Hbig.
  repeat split; reflexivity.
Qed.

Lemma Put_larger_than_capacity_witness :
  exists s',
    Put (sample 0 101) 101 open60 = Ret (STATUS_BUFFER_TOO_SMALL, s') /\
    s' = open60 /\
    m_LinearBufferWritePosition s' = m_LinearBufferWritePosition open60 /\
    m_LinearBufferReadPosition s' = m_LinearBufferReadPosition open60 /\
    m_IsFilling s' = m_IsFilling open60 /\
    m_Buffer s' = m_Buffer open60 /\
    GetAvailableBytes s' = GetAvailableBytes open60.
Proof.
  apply (Put_larger_than_capacity open60 (sample 0 101) 101). reflexivity.
Defined.

(** *** The unread bytes *)

(** Two runs, up to the end of the storage and from its start, read a
    prefix of the rotated storage. *)
Lemma two_runs_rotate {A} (buf : list A) (o k : nat) :
  (o < length buf)%nat -> (k <= length buf)%nat ->
  take (k `min` (length buf - o)) (drop o buf) ++
  take (k - k `min` (length buf - o)) buf =
  take k (rotate o buf).
Proof.
  intros Ho Hk. unfold rotate. rewrite Nat.mod_small by exact Ho.
  rewrite take_app, length_drop.
  destruct (le_lt_dec k (length buf - o)) as [Hfit | Hwrap].
  - rewrite Nat.min_l by exact Hfit.
    replace (k - k)%nat with 0%nat by lia.
    replace (k - (length buf - o))%nat with 0%nat by lia.
    reflexivity.
  - rewrite Nat.min_r by lia.
    rewrite !(take_ge (drop o buf)) by (rewrite length_drop; lia).
    rewrite take_take. f_equal. f_equal. lia.
Qed.

Lemma Take_image_rotate len buf pTarget off count :
  Z.of_nat (length buf) = len ->
  0 <= off < len -> 0 <= count <= len ->
  Take_image len buf pTarget off count =
  list_inserts 0 (take (Z.to_nat count) (rotate (Z.to_nat off) buf)) pTarget.
Proof.
  intros Hlen Hoff Hcount. unfold Take_image, RtlCopyMemory.
  change (Z.to_nat 0) with 0%nat. rewrite drop_0.
  rewrite <- two_runs_rotate by lia.
  rewrite list_inserts_app_l.
  replace (Z.to_nat (Z.min count (len - off)))
    with (Z.to_nat count `min` (length buf - Z.to_nat off))%nat by lia.
  replace (Z.to_nat (count - Z.min count (len - off)))
    with (Z.to_nat count - Z.to_nat count `min` (length buf - Z.to_nat off))%nat
    by lia.
  rewrite length_take, length_drop.
  repeat f_equal. lia.
Qed.

(** C5. While the buffer is filling, [Take] returns
    [STATUS_DEVICE_NOT_READY]: it stores 0 through [readCount] when the
    pointer is not [NULL], leaves the target and the whole object as they
    were, and a later [Take], once a [Put] has left more than half the
    capacity unread, succeeds. *)
Theorem Take_while_filling (s : RingBuffer) (pTarget : list byte) (count : Z)
  (readCount : option Z) :
  well_formed s ->
  m_IsFilling s = true ->
  is_u64 count ->
  Take pTarget count readCount s =
    Ret (mkTakeResult STATUS_DEVICE_NOT_READY pTarget
           (match readCount with Some _ => Some 0 | None => None end), s) /\
  (forall pBytes n st s1,
     is_u64 n ->
     m_LinearBufferWritePosition s + n < two64 ->
     Put pBytes n s = Ret (st, s1) ->
     m_BufferLength s / 2 < unread s1 ->
     exists res s2,
       Take pTarget count readCount s1 = Ret (res, s2) /\
       take_status res = STATUS_SUCCESS).
Proof.
  intros Hwf Hgate Hcount. split.
  - apply Take_filling; [apply Hwf | exact Hgate].
  - intros pBytes n st s1 Hn Hw Hput Hhalf.
    pose proof (Put_well_formed _ _ _ _ _ Hwf Hn Hw Hput) as Hwf1.
    pose proof (Put_gate _ _ _ _ _ Hwf Hn Hw Hput) as Hg.
    rewrite (proj2 (Z.ltb_lt _ _) Hhalf) in Hg.
    destruct Hwf1 as [Hlock (buf & Hbuf & Hblen) Hlen Hr Hrw Hw64 Hun Hfill Hopen Hopen1].
    specialize (Hopen Hg).
    rewrite (Take_returns s1 buf) by (auto; u64).
    eexists _, _. split; reflexivity.
Qed.

(** [well_formed] on a state that is given in full. *)
Ltac well_formed_here :=
  split; [reflexivity | eexists; split; reflexivity | vm_compute; easy ..].

Lemma Take_while_filling_witness :
  Take (pool_block 10) 10 (Some 7) (ready 100) =
    Ret (mkTakeResult STATUS_DEVICE_NOT_READY (pool_block 10) (Some 0), ready 100) /\
  (forall pBytes n st s1,
     is_u64 n ->
     m_LinearBufferWritePosition (ready 100) + n < two64 ->
     Put pBytes n (ready 100) = Ret (st, s1) ->
     m_BufferLength (ready 100) / 2 < unread s1 ->
     exists res s2,
       Take (pool_block 10) 10 (Some 7) s1 = Ret (res, s2) /\
       take_status res = STATUS_SUCCESS).
Proof.
  apply (Take_while_filling (ready 100) (pool_block 10) 10 (Some 7)).
  - well_formed_here.
  - reflexivity.
  - split; [discriminate | reflexivity].
Defined.

(** C3. A [Put] that leaves more than half the capacity unread opens the
    gate of a filling buffer; one that leaves half the capacity or less
    does not; an open gate stays open through every [Put], and a [Take]
    closes it exactly when it leaves nothing unread.  With capacity 100, a
    [Put] of 50 bytes leaves the buffer filling: [GetAvailableBytes] is 0
    and [Take] returns [STATUS_DEVICE_NOT_READY]. *)
Theorem Put_fill_threshold (s : RingBuffer) (pBytes : list byte) (count : Z) :
  well_formed s ->
  is_u64 count ->
  m_LinearBufferWritePosition s + count < two64 ->
  (exists st s',
     Put pBytes count s = Ret (st, s') /\
     (m_IsFilling s = true -> m_BufferLength s / 2 < unread s' ->
      m_IsFilling s' = false) /\
     (m_IsFilling s = true -> unread s' <= m_BufferLength s / 2 ->
      m_IsFilling s' = true) /\
     (m_IsFilling s = false -> m_IsFilling s' = false)) /\
  (forall pTarget n readCount,
     is_u64 n -> m_IsFilling s = false ->
     exists res s',
       Take pTarget n readCount s = Ret (res, s') /\
       (m_IsFilling s' = true <-> unread s' = 0)) /\
  (exists s50,
     Put (sample 0 50) 50 (ready 100) = Ret (STATUS_SUCCESS, s50) /\
     unread s50 = 50 /\
     m_IsFilling s50 = true /\
     GetAvailableBytes s50 = 0 /\
     exists res,
       Take (pool_block 50) 50 (Some 0) s50 = Ret (res, s50) /\
       take_status res = STATUS_DEVICE_NOT_READY /\
       take_readCount res = Some 0).
Proof.
  intros Hwf Hcount Hw. split; [|split].
  - destruct (Put_total s pBytes count Hwf Hcount Hw) as (st & s' & Hput).
    exists st, s'. split; [exact Hput|].
    pose proof (Put_gate _ _ _ _ _ Hwf Hcount Hw Hput) as Hg.
    destruct (Z.ltb_spec (m_BufferLength s / 2) (unread s')) as [Hgt | Hle].
    + repeat split; intros; try exact Hg; lia.
    + repeat split; intros; try lia; congruence.
  - intros pTarget n readCount Hn Hgate.
    destruct Hwf as [Hlock (buf & Hbuf & Hblen) Hlen Hr Hrw Hw64 Hun Hfill Hopen Hopen1].
    specialize (Hopen Hgate).
    rewrite (Take_returns s buf) by (auto; u64).
    eexists _, _. split; [reflexivity|].
    unfold unread in *; fields. lia.
  - eexists. split; [vm_compute; reflexivity|].
    repeat split. eexists. split; [vm_compute; reflexivity|]. split; reflexivity.
Qed.

Lemma Put_fill_threshold_witness :
  (exists st s',
     Put (sample 0 51) 51 (ready 100) = Ret (st, s') /\
     (m_IsFilling (ready 100) = true -> m_BufferLength (ready 100) / 2 < unread s' ->
      m_IsFilling s' = false) /\
     (m_IsFilling (ready 100) = true -> unread s' <= m_BufferLength (ready 100) / 2 ->
      m_IsFilling s' = true) /\
     (m_IsFilling (ready 100) = false -> m_IsFilling s' = false)) /\
  (forall pTarget n readCount,
     is_u64 n -> m_IsFilling (ready 100) = false ->
     exists res s',
       Take pTarget n readCount (ready 100) = Ret (res, s') /\
       (m_IsFilling s' = true <-> unread s' = 0)) /\
  (exists s50,
     Put (sample 0 50) 50 (ready 100) = Ret (STATUS_SUCCESS, s50) /\
     unread s50 = 50 /\
     m_IsFilling s50 = true /\
     GetAvailableBytes s50 = 0 /\
     exists res,
       Take (pool_block 50) 50 (Some 0) s50 = Ret (res, s50) /\
       take_status res = STATUS_DEVICE_NOT_READY /\
       take_readCount res = Some 0).
Proof.
  apply (Put_fill_threshold (ready 100) (sample 0 51) 51).
  - well_formed_here.
  - split; [discriminate | reflexivity].
  - reflexivity.
Defined.

Lemma unread_bytes_length s :
  well_formed s -> Z.of_nat (length (unread_bytes s)) = unread s.
Proof.
  intros [Hlock (buf & Hbuf & Hblen) Hlen Hr Hrw Hw64 Hun Hfill Hopen Hopen1].
  unfold unread_bytes. rewrite Hbuf, length_take, length_rotate.
  unfold unread in *. lia.
Qed.

(** What [Take] leaves in the target: the oldest unread bytes, then what
    the target held beyond them. *)
Lemma Take_image_unread s buf pTarget n :
  well_formed s -> m_Buffer s = Some buf ->
  0 < m_BufferLength s ->
  0 <= n <= unread s -> n <= Z.of_nat (length pTarget) ->
  Take_image (m_BufferLength s) buf pTarget
    (m_LinearBufferReadPosition s mod m_BufferLength s) n =
  take (Z.to_nat n) (unread_bytes s) ++ drop (Z.to_nat n) pTarget.
Proof.
  intros Hwf Hbuf Hpos Hn Hroom.
  pose proof (unread_bytes_length s Hwf) as Hstream.
  destruct Hwf as [Hlock (buf' & Hbuf' & Hblen) Hlen Hr Hrw Hw64 Hun Hfill Hopen Hopen1].
  rewrite Hbuf in Hbuf'. injection Hbuf' as <-.
  assert (Hoff : 0 <= m_LinearBufferReadPosition s mod m_BufferLength s < m_BufferLength s)
    by (apply Z.mod_pos_bound; lia).
  rewrite Take_image_rotate by (auto; lia).
  assert (Hpre :
    take (Z.to_nat n)
      (rotate (Z.to_nat (m_LinearBufferReadPosition s mod m_BufferLength s)) buf) =
    take (Z.to_nat n) (unread_bytes s)).
  { unfold unread_bytes. rewrite Hbuf, take_take. f_equal. lia. }
  rewrite Hpre.
  rewrite <- (take_drop (Z.to_nat n) pTarget) at 1.
  apply list_inserts_0_r.
  rewrite !length_take. lia.
Qed.

(** C4. With the gate open, [Take] returns [STATUS_SUCCESS], also when it is
    asked for more than there is: the count is clamped to the number of
    unread bytes, the target receives that many bytes, the oldest unread
    ones in their order, and nothing beyond them; [readCount], when it is
    not [NULL], receives that number; the read position advances by it;
    and the buffer is filling again exactly when nothing is left unread. *)
Theorem Take_open_gate (s : RingBuffer) (pTarget : list byte) (count : Z)
  (readCount : option Z) :
  well_formed s ->
  m_IsFilling s = false ->
  is_u64 count ->
  count <= Z.of_nat (length pTarget) ->
  exists res s',
    Take pTarget count readCount s = Ret (res, s') /\
    take_status res = STATUS_SUCCESS /\
    take_target res =
      take (Z.to_nat (Z.min count (unread s))) (unread_bytes s) ++
      drop (Z.to_nat (Z.min count (unread s))) pTarget /\
    take_readCount res =
      match readCount with
      | Some _ => Some (Z.min count (unread s))
      | None => None
      end /\
    m_LinearBufferReadPosition s' =
      m_LinearBufferReadPosition s + Z.min count (unread s) /\
    m_LinearBufferWritePosition s' = m_LinearBufferWritePosition s /\
    m_Buffer s' = m_Buffer s /\
    m_BufferLength s' = m_BufferLength s /\
    (m_IsFilling s' = true <-> unread s' = 0).
Proof.
  intros Hwf Hgate Hcount Hroom.
  pose proof (wf_open s Hwf Hgate) as Hpos.
  pose proof (wf_storage s Hwf) as (buf & Hbuf & Hblen).
  pose proof (wf_read s Hwf) as Hr. pose proof (wf_order s Hwf) as Hrw.
  pose proof (wf_unread s Hwf) as Hun. pose proof (wf_write s Hwf) as Hw64.
  pose proof (wf_length s Hwf) as Hlen.
  rewrite (Take_returns s buf) by (auto; try apply Hwf; u64).
  eexists _, _. split; [reflexivity|]. cbn [take_status take_target take_readCount].
  fields. split; [reflexivity|].
  split; [|repeat split; auto; unfold unread in *; fields; lia].
  apply Take_image_unread; auto; unfold unread in *; u64.
Qed.

Lemma Take_open_gate_witness :
  exists res s',
    Take (pool_block 80) 80 (Some 0) open60 = Ret (res, s') /\
    take_status res = STATUS_SUCCESS /\
    take_target res =
      take (Z.to_nat (Z.min 80 (unread open60))) (unread_bytes open60) ++
      drop (Z.to_nat (Z.min 80 (unread open60))) (pool_block 80) /\
    take_readCount res = Some (Z.min 80 (unread open60)) /\
    m_LinearBufferReadPosition s' =
      m_LinearBufferReadPosition open60 + Z.min 80 (unread open60) /\
    m_LinearBufferWritePosition s' = m_LinearBufferWritePosition open60 /\
    m_Buffer s' = m_Buffer open60 /\
    m_BufferLength s' = m_BufferLength open60 /\
    (m_IsFilling s' = true <-> unread s' = 0).
Proof.
  apply (Take_open_gate open60 (pool_block 80) 80 (Some 0)).
  - well_formed_here.
  - reflexivity.
  - split; [discriminate | reflexivity].
  - vm_compute. discriminate.
Defined.

(** C6. Between two calls the read position is at most the write position
    and the two are at most the capacity apart: this holds of the state
    [Init] leaves and of every state that [Put], [Take] and [Clear] lead to.
    A [Put] that would bring the distance above the capacity returns
    [STATUS_BUFFER_OVERFLOW] with the distance back within the capacity. *)
Theorem positions_within_capacity (s : RingBuffer) :
  reachable s ->
  m_LinearBufferReadPosition s <= m_LinearBufferWritePosition s /\
  unread s <= m_BufferLength s /\
  sub64 (m_LinearBufferWritePosition s) (m_LinearBufferReadPosition s)
    <= m_BufferLength s /\
  (forall pBytes count,
     is_u64 count -> count <= m_BufferLength s ->
     m_LinearBufferWritePosition s + count < two64 ->
     m_BufferLength s < unread s + count ->
     exists s',
       Put pBytes count s = Ret (STATUS_BUFFER_OVERFLOW, s') /\
       m_LinearBufferReadPosition s' <= m_LinearBufferWritePosition s' /\
       unread s' <= m_BufferLength s').
Proof.
  intros Hreach. pose proof (reachable_well_formed s Hreach) as Hwf.
  split; [apply Hwf|]. split; [apply Hwf|].
  split; [rewrite unread_sub64 by exact Hwf; apply Hwf|].
  intros pBytes count Hcount Hfit Hw Hover.
  destruct (Put_total s pBytes count Hwf Hcount Hw) as (st & s' & Hput).
  pose proof (Put_well_formed _ _ _ _ _ Hwf Hcount Hw Hput) as Hwf'.
  exists s'. split; [|split; apply Hwf'].
  rewrite Hput. do 2 f_equal.
  destruct Hwf as [Hlock (buf & Hbuf & Hblen) Hlen Hr Hrw Hw64 Hun Hfill Hopen Hopen1].
  rewrite (Put_returns s buf) in Hput by (auto; u64).
  rewrite (proj2 (Z.ltb_lt _ _) Hover) in Hput. congruence.
Qed.

Lemma positions_within_capacity_witness :
  m_LinearBufferReadPosition open60 <= m_LinearBufferWritePosition open60 /\
  unread open60 <= m_BufferLength open60 /\
  sub64 (m_LinearBufferWritePosition open60) (m_LinearBufferReadPosition open60)
    <= m_BufferLength open60 /\
  (forall pBytes count,
     is_u64 count -> count <= m_BufferLength open60 ->
     m_LinearBufferWritePosition open60 + count < two64 ->
     m_BufferLength open60 < unread open60 + count ->
     exists s',
       Put pBytes count open60 = Ret (STATUS_BUFFER_OVERFLOW, s') /\
       m_LinearBufferReadPosition s' <= m_LinearBufferWritePosition s' /\
       unread s' <= m_BufferLength s').
Proof.
  apply (positions_within_capacity open60).
  apply (reach_Put (ready 100) (sample 0 60) 60 STATUS_SUCCESS).
  - apply (reach_Init (RingBuffer_ctor None) 100 true (pool_block 100) None).
    + split; [discriminate | reflexivity].
    + reflexivity.
    + reflexivity.
  - split; [discriminate | reflexivity].
  - reflexivity.
  - vm_compute. reflexivity.
Defined.

(** C9. With a capacity of 2 or more, an open gate means that at least one
    byte is unread: [GetAvailableBytes] is 0 exactly while the buffer is
    filling, and a [Take] of one byte or more that passes the gate moves at
    least one byte.  With capacity 1 a [Put] that overruns leaves the gate
    open and nothing unread. *)
Theorem open_gate_has_unread (s : RingBuffer) :
  reachable s ->
  2 <= m_BufferLength s ->
  (m_IsFilling s = false -> 1 <= unread s) /\
  (GetAvailableBytes s = 0 <-> m_IsFilling s = true) /\
  (forall pTarget count readCount,
     m_IsFilling s = false -> 1 <= count < two64 ->
     exists res s',
       Take pTarget count readCount s = Ret (res, s') /\
       take_status res = STATUS_SUCCESS /\
       1 <= m_LinearBufferReadPosition s' - m_LinearBufferReadPosition s /\
       (readCount <> None ->
        exists n, take_readCount res = Some n /\ 1 <= n)) /\
  (Put (sample 0 1) 1 (ready 1) = Ret (STATUS_SUCCESS, full1) /\
   Put (sample 1 1) 1 full1 = Ret (STATUS_BUFFER_OVERFLOW, overrun1) /\
   reachable overrun1 /\
   m_BufferLength overrun1 = 1 /\
   m_IsFilling overrun1 = false /\
   unread overrun1 = 0 /\
   GetAvailableBytes overrun1 = 0).
Proof.
  intros Hreach Hcap. pose proof (reachable_well_formed s Hreach) as Hwf.
  assert (Hopen : m_IsFilling s = false -> 1 <= unread s)
    by (intros Hg; exact (wf_open_unread s Hwf Hg Hcap)).
  split; [exact Hopen|]. split; [|split].
  - unfold GetAvailableBytes. destruct (m_IsFilling s) eqn:Hg.
    + split; reflexivity.
    + rewrite unread_sub64 by exact Hwf. specialize (Hopen eq_refl).
      split; [lia | discriminate].
  - intros pTarget count readCount Hg Hcount. specialize (Hopen Hg).
    destruct Hwf as [Hlock (buf & Hbuf & Hblen) Hlen Hr Hrw Hw64 Hun Hfill _ _].
    rewrite (Take_returns s buf) by (auto; u64).
    eexists _, _. split; [reflexivity|]. split; [reflexivity|].
    cbn [take_readCount]; fields. split; [lia|].
    destruct readCount as [v|]; [|congruence].
    intros _. eexists. split; [reflexivity | lia].
  - assert (H1 : Put (sample 0 1) 1 (ready 1) = Ret (STATUS_SUCCESS, full1))
      by (vm_compute; reflexivity).
    assert (H2 : Put (sample 1 1) 1 full1 = Ret (STATUS_BUFFER_OVERFLOW, overrun1))
      by (vm_compute; reflexivity).
    repeat split; try assumption.
    apply (reach_Put full1 (sample 1 1) 1 STATUS_BUFFER_OVERFLOW);
      [|split; [discriminate | reflexivity] | reflexivity | exact H2].
    apply (reach_Put (ready 1) (sample 0 1) 1 STATUS_SUCCESS);
      [|split; [discriminate | reflexivity] | reflexivity | exact H1].
    apply ready_reachable. reflexivity.
Qed.

Lemma open_gate_has_unread_witness :
  (m_IsFilling open60 = false -> 1 <= unread open60) /\
  (GetAvailableBytes open60 = 0 <-> m_IsFilling open60 = true) /\
  (forall pTarget count readCount,
     m_IsFilling open60 = false -> 1 <= count < two64 ->
     exists res s',
       Take pTarget count readCount open60 = Ret (res, s') /\
       take_status res = STATUS_SUCCESS /\
       1 <= m_LinearBufferReadPosition s' - m_LinearBufferReadPosition open60 /\
       (readCount <> None ->
        exists n, take_readCount res = Some n /\ 1 <= n)) /\
  (Put (sample 0 1) 1 (ready 1) = Ret (STATUS_SUCCESS, full1) /\
   Put (sample 1 1) 1 full1 = Ret (STATUS_BUFFER_OVERFLOW, overrun1) /\
   reachable overrun1 /\
   m_BufferLength overrun1 = 1 /\
   m_IsFilling overrun1 = false /\
   unread overrun1 = 0 /\
   GetAvailableBytes overrun1 = 0).
Proof.
  apply (open_gate_has_unread open60).
  - apply (reach_Put (ready 100) (sample 0 60) 60 STATUS_SUCCESS).
    + apply (reach_Init (RingBuffer_ctor None) 100 true (pool_block 100) None).
      * split; [discriminate | reflexivity].
      * reflexivity.
      * reflexivity.
    + split; [discriminate | reflexivity].
    + reflexivity.
    + vm_compute. reflexivity.
  - vm_compute. discriminate.
Defined.

(** *** The overrun of [Put] *)

(** What an overrunning [Put] does to the positions, and to the storage when
    the write ends before the end of the storage. *)
Lemma Put_overrun s pBytes count :
  well_formed s ->
  0 < count <= m_BufferLength s ->
  m_LinearBufferWritePosition s + count < two64 ->
  m_BufferLength s < unread s + count ->
  exists s',
    Put pBytes count s = Ret (STATUS_BUFFER_OVERFLOW, s') /\
    NT_ERROR STATUS_BUFFER_OVERFLOW = false /\
    m_LinearBufferReadPosition s' =
      m_LinearBufferWritePosition s + count - m_BufferLength s + 1 /\
    m_LinearBufferWritePosition s' = m_LinearBufferWritePosition s + count /\
    unread s' = m_BufferLength s - 1 /\
    (m_LinearBufferWritePosition s mod m_BufferLength s + count <= m_BufferLength s ->
     forall buf, m_Buffer s = Some buf ->
       m_Buffer s' =
       Some (RtlCopyMemory buf
               (m_LinearBufferWritePosition s mod m_BufferLength s) pBytes 0 count)).
Proof.
  intros Hwf Hcount Hw Hover.
  destruct Hwf as [Hlock (buf & Hbuf & Hblen) Hlen Hr Hrw Hw64 Hun Hfill Hopen Hopen1].
  rewrite (Put_returns s buf) by (auto; u64).
  rewrite (proj2 (Z.ltb_lt _ _) Hover).
  eexists. split; [reflexivity|]. split; [reflexivity|].
  unfold unread, Put_ReadPosition in *; fields.
  replace (m_BufferLength s <?
           m_LinearBufferWritePosition s + count - m_LinearBufferReadPosition s)
    with true by (symmetry; apply Z.ltb_lt; lia).
  repeat split; try lia.
  intros Hnowrap buf' Hbuf'. rewrite Hbuf in Hbuf'. injection Hbuf' as <-.
  unfold Put_image. rewrite Z.min_l, Z.sub_diag by lia. reflexivity.
Qed.

(** Capacity 100: a [Put] of 100 bytes, then a [Put] of 10 bytes.  The
    second one overruns; 99 bytes are unread, the last 89 of the first
    hundred and the ten new ones. *)
Lemma overrun_100_10 :
  exists s1 s2,
    Put (sample 0 100) 100 (ready 100) = Ret (STATUS_SUCCESS, s1) /\
    Put (sample 100 10) 10 s1 = Ret (STATUS_BUFFER_OVERFLOW, s2) /\
    unread s2 = 99 /\
    m_LinearBufferReadPosition s2 = 11 /\
    GetAvailableBytes s2 = 99 /\
    unread_bytes s2 = sample 11 89 ++ sample 100 10.
Proof.
  eexists _, _. split; [vm_compute; reflexivity|].
  split; [vm_compute; reflexivity|].
  repeat split; vm_compute; reflexivity.
Qed.

Lemma three_of_4_Put : Put (sample 1 3) 3 (ready 4) = Ret (STATUS_SUCCESS, three_of_4).
Proof. vm_compute. reflexivity. Qed.

(** C2, at a write that overruns and wraps.  Capacity 4, the bytes 1, 2, 3
    unread, a [Put] of the bytes 4, 5, 6: the positions and the status are
    those of an overrun, but the storage receives 4 at the offset 3 and
    then 4, 5 at the offsets 0 and 1: the second run starts again at the
    beginning of the source, and the byte 6 is never copied. *)
Theorem Put_overrun_wrapping_write :
  exists s',
    Put (sample 4 3) 3 three_of_4 = Ret (STATUS_BUFFER_OVERFLOW, s') /\
    m_LinearBufferReadPosition s' = 3 /\
    m_LinearBufferWritePosition s' = 6 /\
    unread s' = m_BufferLength s' - 1 /\
    m_Buffer s' = Some [x04; x05; x03; x04] /\
    unread_bytes s' = [x04; x04; x05] /\
    unread_bytes s' <> sample 4 3.
Proof.
  eexists. split; [vm_compute; reflexivity|].
  repeat split; try (vm_compute; reflexivity).
  vm_compute. discriminate.
Qed.

(** C1, at a write that wraps without overrun.  Capacity 4: the bytes 1, 2,
    3 are put and taken, the bytes 4, 5, 6 are put, and [Take] returns 4,
    4, 5.  No call puts more than the capacity and at most three bytes are
    unread at any time. *)
Theorem Take_after_wrapping_Put :
  exists s1 res1 s2 s3 res2 s4,
    Put (sample 1 3) 3 (ready 4) = Ret (STATUS_SUCCESS, s1) /\
    Take (pool_block 3) 3 (Some 0) s1 = Ret (res1, s2) /\
    take_status res1 = STATUS_SUCCESS /\
    take_target res1 = sample 1 3 /\
    Put (sample 4 3) 3 s2 = Ret (STATUS_SUCCESS, s3) /\
    unread s3 = 3 /\
    Take (pool_block 3) 3 (Some 0) s3 = Ret (res2, s4) /\
    take_status res2 = STATUS_SUCCESS /\
    take_readCount res2 = Some 3 /\
    take_target res2 = [x04; x04; x05] /\
    take_target res2 <> sample 4 3.
Proof.
  eexists _, _, _, _, _, _.
  split; [vm_compute; reflexivity|].
  split; [vm_compute; reflexivity|].
  split; [reflexivity|]. split; [reflexivity|].
  split; [vm_compute; reflexivity|].
  split; [reflexivity|].
  split; [vm_compute; reflexivity|].
  repeat split. vm_compute. discriminate.
Qed.

(** *** [Init] without storage *)

(** C8, at a second [Init] whose allocation fails.  The buffer had capacity
    100; [Init] gives the old block back to the pool, receives none,
    returns [STATUS_INSUFFICIENT_RESOURCES] and leaves [m_Buffer] at [NULL],
    but [m_BufferLength] is still 100, where a buffer that was never
    initialised has 0: [GetSize] reports 100 and a [Put] of 10 bytes passes
    the test of the capacity and writes through [NULL]. *)
Theorem Init_again_without_storage :
  exists s',
    Init 200 true None (ready 100) =
      Ret (STATUS_INSUFFICIENT_RESOURCES, Some (pool_block 100), s') /\
    m_Buffer s' = None /\
    m_BufferLength s' = 100 /\
    GetSize s' = 100 /\
    GetSize (RingBuffer_ctor None) = 0 /\
    Put (sample 0 10) 10 s' = Fault.
Proof.
  eexists. split; [vm_compute; reflexivity|].
  repeat split.
Qed.

(** The destructor gives the storage back in the same way and then sets
    the capacity to 0. *)
Lemma dtor_resets_capacity s buf :
  m_BufferLock s = Some false -> m_Buffer s = Some buf ->
  exists s',
    RingBuffer_dtor s = Ret s' /\ m_Buffer s' = None /\ m_BufferLength s' = 0.
Proof.
  destruct s as [lock sto len fill r w]; fields. intros -> ->.
  eexists. repeat split.
Qed.

(** What holds of [Init] in general: with storage it resets the positions
    and the gate, after the old block went back to the pool; without
    storage it assigns neither the capacity nor the positions. *)
Lemma Init_with_storage s bufferSize newLock block :
  lock_available newLock s ->
  exists s',
    Init bufferSize newLock (Some block) s = Ret (STATUS_SUCCESS, m_Buffer s, s') /\
    m_Buffer s' = Some block /\
    m_BufferLength s' = bufferSize /\
    m_LinearBufferWritePosition s' = 0 /\
    m_LinearBufferReadPosition s' = 0 /\
    m_IsFilling s' = true.
Proof.
  intros Hlock. rewrite Init_succeeds by exact Hlock.
  eexists. repeat split.
Qed.

Lemma Init_without_storage s bufferSize newLock :
  lock_available newLock s ->
  exists s',
    Init bufferSize newLock None s =
      Ret (STATUS_INSUFFICIENT_RESOURCES, m_Buffer s, s') /\
    m_Buffer s' = None /\
    m_BufferLength s' = m_BufferLength s.
Proof.
  intros Hlock. rewrite Init_out_of_pool by exact Hlock.
  eexists. repeat split.
Qed.

(** *** The lock *)

(** [Put] neither takes nor tests the lock: it does the same whether the
    lock is free, held or missing, and leaves it as it is. *)
Lemma Put_ignores_lock lock pBytes count s :
  Put pBytes count (set_BufferLock lock s) =
  match Put pBytes count s with
  | Ret (st, s') => Ret (st, set_BufferLock lock s')
  | Fault => Fault
  | Hang => Hang
  end.
Proof.
  destruct s as [lock0 [buf|] len fill r w]; unfold Put; fields;
    (destruct (count >? len); [reflexivity|]);
    (destruct (count =? 0); [reflexivity|]);
    destruct (sub64 (add64 w count) r >? len); fields;
    (destruct (len =? 0); [reflexivity|]); try reflexivity;
    (destruct (Put_loop _ _ _ _ _ _ _) as [[buf' written]|]; [|reflexivity]);
    fields; destruct (fill && _); reflexivity.
Qed.

Lemma full4_Put : Put (sample 1 4) 4 (ready 4) = Ret (STATUS_SUCCESS, full4).
Proof. vm_compute. reflexivity. Qed.

(** C10, at a [Put] that runs while a [Take] holds the lock.  [Take] has
    copied four bytes and holds the lock: [Clear] and a second [Take] spin,
    but [Put] runs, overruns and moves the read position to 3.  [Take] then
    adds its four bytes: the read position is 7, the write position 6.  As
    whole calls, in either order, the two leave the read position at 4 or
    at 6. *)
Theorem Put_during_Take :
  exists target locked s2 res s3,
    Take_copy (pool_block 4) 4 (Some 0) full4 = Ret (inr (target, 4), locked) /\
    m_BufferLock locked = Some true /\
    Clear locked = Hang /\
    Take (pool_block 4) 4 (Some 0) locked = Hang /\
    Put (sample 5 2) 2 locked = Ret (STATUS_BUFFER_OVERFLOW, s2) /\
    m_BufferLock s2 = Some true /\
    Take_commit target 4 (Some 0) s2 = Ret (res, s3) /\
    m_LinearBufferReadPosition s3 = 7 /\
    m_LinearBufferWritePosition s3 = 6 /\
    GetAvailableBytes s3 = two64 - 1 /\
    (exists r1 a st b,
       Take (pool_block 4) 4 (Some 0) full4 = Ret (r1, a) /\
       Put (sample 5 2) 2 a = Ret (st, b) /\
       m_LinearBufferReadPosition b = 4 /\ m_LinearBufferWritePosition b = 6) /\
    (exists st a r1 b,
       Put (sample 5 2) 2 full4 = Ret (st, a) /\
       Take (pool_block 4) 4 (Some 0) a = Ret (r1, b) /\
       m_LinearBufferReadPosition b = 6 /\ m_LinearBufferWritePosition b = 6).
Proof.
  eexists _, _, _, _, _.
  split; [vm_compute; reflexivity|].
  split; [reflexivity|].
  split; [reflexivity|].
  split; [reflexivity|].
  split; [vm_compute; reflexivity|].
  split; [reflexivity|].
  split; [vm_compute; reflexivity|].
  split; [reflexivity|]. split; [reflexivity|]. split; [reflexivity|].
  split.
  - eexists _, _, _, _. split; [vm_compute; reflexivity|].
    split; [vm_compute; reflexivity|]. split; reflexivity.
  - eexists _, _, _, _. split; [vm_compute; reflexivity|].
    split; [vm_compute; reflexivity|]. split; reflexivity.
Qed.

(** *** Runs that stay within the capacity

    As long as the bytes put since [Init] are, in total, at most the
    capacity, no copy reaches the end of the storage, and the bytes come out
    as they went in. *)

Lemma linear_unread_bytes s puts :
  linear s puts ->
  unread_bytes s = drop (Z.to_nat (m_LinearBufferReadPosition s)) puts.
Proof.
  intros [Hwf Hw Hfit (buf & Hbuf & Hputs)].
  pose proof (wf_storage s Hwf) as (buf' & Hbuf' & Hblen).
  rewrite Hbuf in Hbuf'. injection Hbuf' as <-.
  pose proof (wf_read s Hwf) as Hr. pose proof (wf_order s Hwf) as Hrw.
  unfold unread_bytes, unread. rewrite Hbuf.
  destruct (Z.eq_dec (m_LinearBufferWritePosition s) (m_LinearBufferReadPosition s))
    as [Heq | Hne].
  - rewrite Heq, Z.sub_diag, drop_ge by lia. reflexivity.
  - rewrite Z.mod_small by lia.
    unfold rotate. rewrite Nat.mod_small by lia.
    rewrite take_app_le by (rewrite length_drop; lia).
    rewrite take_drop_commute.
    replace (Z.to_nat (m_LinearBufferReadPosition s) +
             Z.to_nat (m_LinearBufferWritePosition s - m_LinearBufferReadPosition s))%nat
      with (length puts) by lia.
    rewrite Hputs. reflexivity.
Qed.

Lemma write_at_end (buf puts pBytes : list byte) :
  take (length puts) buf = puts ->
  (length puts + length pBytes <= length buf)%nat ->
  take (length (puts ++ pBytes)) (list_inserts (length puts) pBytes buf) =
  puts ++ pBytes.
Proof.
  intros Hputs Hroom.
  rewrite <- (take_drop (length puts) buf) at 1.
  rewrite Hputs.
  rewrite <- (Nat.add_0_r (length puts)) at 1.
  rewrite list_inserts_app_r.
  rewrite <- (take_drop (length pBytes) (drop (length puts) buf)).
  rewrite list_inserts_0_r
    by (rewrite length_take, length_drop; lia).
  rewrite app_assoc. apply take_app_length.
Qed.

Lemma linear_Put s puts pBytes :
  linear s puts ->
  Z.of_nat (length puts) + Z.of_nat (length pBytes) <= m_BufferLength s ->
  exists st s',
    Put pBytes (Z.of_nat (length pBytes)) s = Ret (st, s') /\
    linear s' (puts ++ pBytes) /\
    m_BufferLength s' = m_BufferLength s /\
    m_LinearBufferReadPosition s' = m_LinearBufferReadPosition s.
Proof.
  intros Hlin Hroom.
  destruct (decide (pBytes = [])) as [-> | Hne].
  { rewrite Put_nothing by apply Hlin. rewrite app_nil_r. eauto 6. }
  assert (Hpos : 0 < Z.of_nat (length pBytes))
    by (destruct pBytes; [congruence | cbn [length]; lia]).
  destruct Hlin as [Hwf Hw Hfit (buf & Hbuf & Hputs)].
  pose proof (wf_storage s Hwf) as (buf' & Hbuf' & Hblen).
  rewrite Hbuf in Hbuf'. injection Hbuf' as <-.
  pose proof (wf_read s Hwf) as Hr. pose proof (wf_order s Hwf) as Hrw.
  pose proof (wf_length s Hwf) as Hlen.
  assert (Hcount : is_u64 (Z.of_nat (length pBytes))) by u64.
  assert (Hw64 : m_LinearBufferWritePosition s + Z.of_nat (length pBytes) < two64)
    by u64.
  destruct (Put_total s pBytes _ Hwf Hcount Hw64) as (st & s' & Hput).
  exists st, s'. split; [exact Hput|].
  pose proof (Put_well_formed _ _ _ _ _ Hwf Hcount Hw64 Hput) as Hwf'.
  rewrite (Put_returns s buf) in Hput by (auto; u64).
  injection Hput as _ <-.
  split; [|split; [reflexivity|]]; [split|]; fields.
  - exact Hwf'.
  - rewrite length_app. lia.
  - lia.
  - eexists. split; [reflexivity|].
    unfold Put_image. rewrite Z.mod_small by lia.
    rewrite Z.min_l, Z.sub_diag, RtlCopyMemory_zero by lia.
    unfold RtlCopyMemory. change (Z.to_nat 0) with 0%nat.
    rewrite drop_0, Nat2Z.id, (take_ge pBytes) by lia.
    rewrite Hw, Nat2Z.id.
    apply write_at_end; [exact Hputs | lia].
  - unfold Put_ReadPosition. rewrite (proj2 (Z.ltb_ge _ _)) by lia. reflexivity.
Qed.

Lemma linear_Take s puts pTarget count readCount :
  linear s puts ->
  is_u64 count -> count <= Z.of_nat (length pTarget) ->
  exists res s',
    Take pTarget count readCount s = Ret (res, s') /\
    linear s' puts /\
    m_BufferLength s' = m_BufferLength s /\
    taken_by s s' res ++ unread_bytes s' = unread_bytes s.
Proof.
  intros Hlin Hcount Hroom.
  pose proof (lin_wf s puts Hlin) as Hwf.
  destruct (m_IsFilling s) eqn:Hgate.
  { rewrite Take_filling by (auto; apply Hwf).
    eexists _, _. split; [reflexivity|]. split; [exact Hlin|].
    split; [reflexivity|].
    unfold taken_by. rewrite Z.sub_diag. reflexivity. }
  pose proof (wf_open s Hwf Hgate) as Hpos.
  pose proof (wf_storage s Hwf) as (buf & Hbuf & Hblen).
  pose proof (wf_read s Hwf) as Hr. pose proof (wf_order s Hwf) as Hrw.
  pose proof (wf_unread s Hwf) as Hun. pose proof (wf_write s Hwf) as Hw64.
  pose proof (wf_length s Hwf) as Hlen.
  pose proof (unread_bytes_length s Hwf) as Hstream.
  destruct (Take_total s pTarget count readCount Hwf Hcount) as (res & s' & Htake).
  exists res, s'. split; [exact Htake|].
  pose proof (Take_well_formed _ _ _ _ _ _ Hwf Hcount Htake) as Hwf'.
  set (n := Z.min count (unread s)).
  assert (Hn : 0 <= n <= unread s) by (unfold unread in *; u64).
  rewrite (Take_returns s buf) in Htake by (auto; try apply Hwf; u64).
  fold n in Htake.
  rewrite Take_image_unread in Htake by (auto; lia).
  injection Htake as <- <-.
  assert (Hlin' :
    linear (mkRingBuffer (Some false) (Some buf) (m_BufferLength s)
              (unread s - n =? 0) (m_LinearBufferReadPosition s + n)
              (m_LinearBufferWritePosition s)) puts).
  { destruct Hlin as [_ Hw Hfit Hsto].
    split; fields; [exact Hwf' | exact Hw | exact Hfit |].
    rewrite <- Hbuf. exact Hsto. }
  split; [exact Hlin'|]. split; [reflexivity|].
  unfold taken_by; cbn [take_target]; fields.
  replace (m_LinearBufferReadPosition s + n - m_LinearBufferReadPosition s)
    with n by lia.
  rewrite take_app_le by (rewrite length_take; lia).
  rewrite take_take, Nat.min_id.
  rewrite (linear_unread_bytes _ puts Hlin'); fields.
  rewrite (linear_unread_bytes s puts Hlin).
  rewrite Z2Nat.inj_add, <- drop_drop by lia.
  apply take_drop.
Qed.

Lemma run_linear calls : forall s puts,
  linear s puts ->
  Z.of_nat (length puts) + Z.of_nat (length (put_stream calls)) <= m_BufferLength s ->
  targets_fit calls ->
  exists taken s',
    run calls s = Ret (taken, s') /\
    linear s' (puts ++ put_stream calls) /\
    taken ++ unread_bytes s' = unread_bytes s ++ put_stream calls.
Proof.
  induction calls as [|[pBytes | pTarget count readCount] rest IH];
    intros s puts Hlin Hroom Hfit; cbn [run put_stream targets_fit] in *.
  - exists [], s. rewrite !app_nil_r. auto.
  - rewrite length_app in Hroom.
    destruct (linear_Put s puts pBytes Hlin) as (st & s1 & Hput & Hlin1 & Hlen1 & Hr1);
      [lia|].
    destruct (IH s1 (puts ++ pBytes) Hlin1) as (taken & s' & Hrun & Hlin' & Hfifo);
      [rewrite length_app, Hlen1; lia | exact Hfit |].
    rewrite Hput. fields. cbn [snd].
    exists taken, s'. split; [exact Hrun|].
    rewrite <- app_assoc in Hlin'. split; [exact Hlin'|].
    rewrite Hfifo, (linear_unread_bytes s1 _ Hlin1), (linear_unread_bytes s _ Hlin).
    rewrite Hr1, drop_app_le, app_assoc; [reflexivity|].
    pose proof (lin_wf s puts Hlin) as Hwf. destruct Hlin, Hwf. lia.
  - destruct Hfit as (Hcount & Hroom' & Hfit).
    destruct (linear_Take s puts pTarget count readCount Hlin Hcount Hroom')
      as (res & s1 & Htake & Hlin1 & Hlen1 & Hstep).
    destruct (IH s1 puts Hlin1) as (taken & s' & Hrun & Hlin' & Hfifo);
      [rewrite Hlen1; exact Hroom | exact Hfit |].
    rewrite Htake. fields. cbn [snd fst]. rewrite Hrun. fields. cbn [snd fst].
    eexists _, _. split; [reflexivity|]. split; [exact Hlin'|].
    rewrite <- app_assoc, Hfifo, app_assoc, Hstep. reflexivity.
Qed.

(** From [Init] on, while at most as many bytes are put as the capacity:
    the bytes taken, followed by the bytes still unread, are the bytes put,
    in their order. *)
Theorem fifo_within_capacity (capacity : nat) (calls : list call) :
  Z.of_nat capacity < two64 ->
  (length (put_stream calls) <= capacity)%nat ->
  targets_fit calls ->
  exists taken s',
    run calls (ready capacity) = Ret (taken, s') /\
    taken ++ unread_bytes s' = put_stream calls.
Proof.
  intros Hcap Hputs Hfit.
  assert (Hlin : linear (ready capacity) []).
  { split.
    - apply reachable_well_formed, ready_reachable, Hcap.
    - reflexivity.
    - cbn. lia.
    - eexists. split; reflexivity. }
  destruct (run_linear calls (ready capacity) [] Hlin) as (taken & s' & Hrun & _ & Hfifo);
    [cbn; lia | exact Hfit |].
  exists taken, s'. split; [exact Hrun|].
  rewrite Hfifo. unfold unread_bytes, unread; cbn. rewrite take_0. reflexivity.
Qed.

(** * Further properties *)

(** ** Offsets modulo the capacity *)

Lemma mod_distinct len a b :
  0 < len -> 0 < b - a < len -> a mod len <> b mod len.
Proof.
  intros Hlen Hd Heq.
  assert (Hz : (b - a) mod len = 0)
    by (rewrite Zminus_mod, Heq, Z.sub_diag; apply Z.mod_0_l; lia).
  rewrite Z.mod_small in Hz by lia. lia.
Qed.

Lemma mod_offset len w k :
  0 < len -> 0 <= k -> w mod len + k < len ->
  (w + k) mod len = w mod len + k.
Proof.
  intros Hlen Hk Hfit.
  pose proof (Z.mod_pos_bound w len Hlen).
  rewrite <- Zplus_mod_idemp_l. apply Z.mod_small. lia.
Qed.

Lemma mod_offset_wrap len w k :
  0 < len -> len <= w mod len + k < 2 * len ->
  (w + k) mod len = w mod len + k - len.
Proof.
  intros Hlen Hwrap.
  rewrite <- Zplus_mod_idemp_l. symmetry.
  apply (Z.mod_unique_pos _ len 1); lia.
Qed.

(** ** The storage after the loop of [Put] *)

Section PutImage.

Variables (len off count : Z) (pBytes buf : list byte).
Hypothesis storage_length : Z.of_nat (length buf) = len.
Hypothesis offset_in_storage : 0 <= off < len.
Hypothesis count_in_capacity : 0 < count <= len.
Hypothesis source_length : count <= Z.of_nat (length pBytes).

Lemma Put_image_first_run k :
  0 <= k < Z.min count (len - off) ->
  Put_image len pBytes buf off count !! Z.to_nat (off + k) = pBytes !! Z.to_nat k.
Proof.
  intros Hk. unfold Put_image, RtlCopyMemory.
  change (Z.to_nat 0) with 0%nat. rewrite drop_0.
  rewrite list_lookup_inserts_ge by (rewrite length_take; lia).
  rewrite list_lookup_inserts by (rewrite ?length_take; lia).
  rewrite lookup_take_lt by lia. f_equal. lia.
Qed.

Lemma Put_image_second_run j :
  0 <= j < count - Z.min count (len - off) ->
  Put_image len pBytes buf off count !! Z.to_nat j = pBytes !! Z.to_nat j.
Proof.
  intros Hj. unfold Put_image, RtlCopyMemory.
  change (Z.to_nat 0) with 0%nat. rewrite drop_0.
  rewrite list_lookup_inserts by (rewrite ?length_inserts, ?length_take; lia).
  rewrite lookup_take_lt by lia. f_equal. lia.
Qed.

Lemma Put_image_elsewhere j :
  0 <= j < len ->
  count - Z.min count (len - off) <= j ->
  j < off \/ off + Z.min count (len - off) <= j ->
  Put_image len pBytes buf off count !! Z.to_nat j = buf !! Z.to_nat j.
Proof.
  intros Hj Hsecond Hfirst. unfold Put_image, RtlCopyMemory.
  change (Z.to_nat 0) with 0%nat. rewrite drop_0.
  rewrite list_lookup_inserts_ge by (rewrite length_take; lia).
  destruct Hfirst as [Hlt | Hge].
  - apply list_lookup_inserts_lt. lia.
  - apply list_lookup_inserts_ge. rewrite length_take. lia.
Qed.

End PutImage.

(** ** The unread bytes, byte by byte *)

Lemma unread_bytes_lookup s buf i :
  well_formed s -> m_Buffer s = Some buf ->
  0 <= i < unread s ->
  unread_bytes s !! Z.to_nat i =
  buf !! Z.to_nat ((m_LinearBufferReadPosition s + i) mod m_BufferLength s).
Proof.
  intros Hwf Hbuf Hi.
  destruct Hwf as [Hlock (buf' & Hbuf' & Hblen) Hlen Hr Hrw Hw64 Hun Hfill Hopen Hopen1].
  rewrite Hbuf in Hbuf'. injection Hbuf' as <-.
  unfold unread_bytes. rewrite Hbuf.
  assert (Hpos : 0 < m_BufferLength s) by lia.
  pose proof (Z.mod_pos_bound (m_LinearBufferReadPosition s) _ Hpos) as Hoff.
  rewrite lookup_take_lt by lia.
  rewrite lookup_rotate_r by lia.
  unfold rotate_nat_add. rewrite !Z2Nat.id, Hblen by lia.
  rewrite Zplus_mod_idemp_l. reflexivity.
Qed.

Lemma Put_source_length len off pBytes count :
  0 <= off < len -> 0 < count <= len -> count <= Z.of_nat (length pBytes) ->
  Z.of_nat (length (Put_source len off pBytes count)) = count.
Proof.
  intros Hoff Hcount Hsrc. unfold Put_source.
  rewrite length_app, !length_take. lia.
Qed.

(** The unread bytes after a [Put] that is neither rejected nor empty: the
    bytes that were unread, then the bytes the loop has read from the
    source, without the oldest ones that an overrun discards. *)
Lemma Put_unread_bytes s pBytes count st s' :
  well_formed s ->
  0 < count <= m_BufferLength s ->
  count <= Z.of_nat (length pBytes) ->
  m_LinearBufferWritePosition s + count < two64 ->
  Put pBytes count s = Ret (st, s') ->
  unread_bytes s' =
  drop (Z.to_nat (m_LinearBufferReadPosition s' - m_LinearBufferReadPosition s))
    (unread_bytes s ++
     Put_source (m_BufferLength s)
       (m_LinearBufferWritePosition s mod m_BufferLength s) pBytes count).
Proof.
  intros Hwf Hcount Hsrc Hw Hput.
  assert (Hc64 : is_u64 count) by (destruct Hwf; u64).
  pose proof (Put_well_formed _ _ _ _ _ Hwf Hc64 Hw Hput) as Hwf'.
  pose proof (unread_bytes_length s Hwf) as Hlen_old.
  pose proof (unread_bytes_length s' Hwf') as Hlen_new.
  pose proof (wf_storage s Hwf) as (buf & Hbuf & Hblen).
  pose proof (wf_read s Hwf) as Hr. pose proof (wf_order s Hwf) as Hrw.
  pose proof (wf_unread s Hwf) as Hun. pose proof (wf_length s Hwf) as Hlen.
  assert (Hpos : 0 < m_BufferLength s) by lia.
  pose proof (Z.mod_pos_bound (m_LinearBufferWritePosition s) _ Hpos) as Hoff.
  pose proof (Put_source_length _ _ pBytes count Hoff Hcount Hsrc) as Hlen_src.
  set (src := Put_source (m_BufferLength s)
                (m_LinearBufferWritePosition s mod m_BufferLength s) pBytes count) in *.
  rewrite (Put_returns s buf) in Hput by (auto; u64).
  injection Hput as _ <-.
  set (s' := mkRingBuffer _ _ _ _ _ _) in *.
  assert (Hr' : m_LinearBufferReadPosition s' = Put_ReadPosition count s) by reflexivity.
  assert (Hw' : m_LinearBufferWritePosition s' = m_LinearBufferWritePosition s + count)
    by reflexivity.
  assert (Hshift : 0 <= Put_ReadPosition count s - m_LinearBufferReadPosition s /\
                   unread s + count - m_BufferLength s <
                     Put_ReadPosition count s - m_LinearBufferReadPosition s \/
                   Put_ReadPosition count s = m_LinearBufferReadPosition s /\
                   unread s + count <= m_BufferLength s).
  { unfold Put_ReadPosition, unread in *.
    destruct (Z.ltb_spec (m_BufferLength s)
                (m_LinearBufferWritePosition s + count - m_LinearBufferReadPosition s));
      [left | right]; lia. }
  rewrite Hr'.
  set (d := Put_ReadPosition count s - m_LinearBufferReadPosition s) in *.
  assert (Hd : 0 <= d /\ unread s + count - m_BufferLength s < d \/
               d = 0 /\ unread s + count <= m_BufferLength s) by (unfold d; lia).
  assert (Hu' : unread s' = unread s + count - d)
    by (unfold unread in *; rewrite Hr', Hw'; unfold d; lia).
  assert (Hu'pos : 0 <= unread s') by (destruct Hwf'; unfold unread in *; lia).
  apply list_eq. intros i.
  destruct (decide (Z.of_nat i < unread s')) as [Hi | Hi].
  2:{ rewrite (proj2 (lookup_ge_None _ _)) by lia.
      symmetry. apply lookup_ge_None.
      rewrite length_drop, length_app. lia. }
  rewrite lookup_drop.
  rewrite <- (Nat2Z.id i) at 1.
  rewrite (unread_bytes_lookup s' (Put_image (m_BufferLength s) pBytes buf
            (m_LinearBufferWritePosition s mod m_BufferLength s) count))
    by (auto; lia).
  rewrite Hr'. change (m_BufferLength s') with (m_BufferLength s).
  set (g := d + Z.of_nat i).
  replace (Put_ReadPosition count s + Z.of_nat i)
    with (m_LinearBufferReadPosition s + g) by (unfold g, d; lia).
  replace (Z.to_nat d + i)%nat with (Z.to_nat g) by (unfold g; lia).
  assert (Hg : 0 <= g < unread s + count) by (unfold g; lia).
  set (len := m_BufferLength s) in *.
  set (off := m_LinearBufferWritePosition s mod len) in *.
  set (run1 := Z.min count (len - off)).
  set (P := (m_LinearBufferReadPosition s + g) mod len).
  assert (HP : 0 <= P < len) by (apply Z.mod_pos_bound; lia).
  assert (Hwritten : forall k, 0 <= k < count ->
            (m_LinearBufferWritePosition s + k) mod len =
            if k <? run1 then off + k else k - run1).
  { intros k Hk. destruct (Z.ltb_spec k run1).
    - apply mod_offset; unfold off, run1 in *; lia.
    - rewrite mod_offset_wrap by (unfold off, run1 in *; lia).
      unfold off, run1 in *. lia. }
  destruct (decide (g < unread s)) as [Hold | Hnew].
  - rewrite lookup_app_l by lia.
    rewrite (unread_bytes_lookup s buf) by (auto; lia).
    fold len P.
    assert (Hfree : forall k, 0 <= k < count ->
              P <> (m_LinearBufferWritePosition s + k) mod len).
    { intros k Hk. apply mod_distinct; [lia|]. unfold unread in *. lia. }
    apply Put_image_elsewhere; try assumption.
    + fold run1.
      destruct (Z.le_gt_cases (count - run1) P) as [|Hlt]; [assumption|].
      exfalso. apply (Hfree (P + run1)); [unfold run1 in *; lia|].
      rewrite Hwritten by (unfold run1 in *; lia).
      rewrite (proj2 (Z.ltb_ge _ _)) by lia. lia.
    + fold run1.
      destruct (Z.lt_ge_cases P off) as [|Hge]; [left; assumption|].
      destruct (Z.le_gt_cases (off + run1) P) as [|Hlt]; [right; assumption|].
      exfalso. apply (Hfree (P - off)); [unfold run1 in *; lia|].
      rewrite Hwritten by (unfold run1 in *; lia).
      rewrite (proj2 (Z.ltb_lt _ _)) by lia. lia.
  - rewrite lookup_app_r by lia.
    set (k := g - unread s).
    assert (Hk : 0 <= k < count) by (unfold k; lia).
    replace (Z.to_nat g - length (unread_bytes s))%nat with (Z.to_nat k)
      by (unfold k; lia).
    assert (HPk : P = (m_LinearBufferWritePosition s + k) mod len)
      by (unfold P, k, unread; f_equal; lia).
    rewrite HPk, Hwritten by exact Hk.
    unfold src, Put_source. fold len off run1.
    destruct (Z.ltb_spec k run1) as [Hfirst | Hsecond].
    + rewrite lookup_app_l by (rewrite length_take; unfold run1 in *; lia).
      rewrite lookup_take_lt by lia.
      apply Put_image_first_run; try assumption. fold run1. lia.
    + rewrite lookup_app_r by (rewrite length_take; unfold run1 in *; lia).
      rewrite length_take.
      replace (Z.to_nat k - Z.to_nat run1 `min` length pBytes)%nat
        with (Z.to_nat (k - run1)) by (unfold run1 in *; lia).
      rewrite lookup_take_lt by lia.
      apply Put_image_second_run; try assumption. fold run1. lia.
Qed.

(** The unread bytes after a [Take] through the open gate: those that were
    unread, without the ones the call has moved. *)
Lemma Take_unread_bytes s pTarget count readCount res s' :
  well_formed s -> m_IsFilling s = false -> is_u64 count ->
  Take pTarget count readCount s = Ret (res, s') ->
  unread_bytes s' = drop (Z.to_nat (Z.min count (unread s))) (unread_bytes s).
Proof.
  intros Hwf Hgate Hcount Htake.
  pose proof (Take_well_formed _ _ _ _ _ _ Hwf Hcount Htake) as Hwf'.
  pose proof (unread_bytes_length s Hwf) as Hlen_old.
  pose proof (unread_bytes_length s' Hwf') as Hlen_new.
  pose proof (wf_storage s Hwf) as (buf & Hbuf & Hblen).
  pose proof (wf_read s Hwf) as Hr. pose proof (wf_order s Hwf) as Hrw.
  pose proof (wf_unread s Hwf) as Hun. pose proof (wf_length s Hwf) as Hlen.
  pose proof (wf_write s Hwf) as Hw64.
  pose proof (wf_open s Hwf Hgate) as Hpos.
  rewrite (Take_returns s buf) in Htake by (auto; try apply Hwf; u64).
  injection Htake as _ <-.
  set (n := Z.min count (unread s)) in *.
  assert (Hn : 0 <= n <= unread s) by (unfold unread in *; u64).
  set (s' := mkRingBuffer _ _ _ _ _ _) in *.
  assert (Hu' : unread s' = unread s - n) by (unfold unread; cbn; lia).
  apply list_eq. intros i.
  destruct (decide (Z.of_nat i < unread s')) as [Hi | Hi].
  2:{ rewrite (proj2 (lookup_ge_None _ _)) by lia.
      symmetry. apply lookup_ge_None. rewrite length_drop. lia. }
  rewrite lookup_drop.
  rewrite <- (Nat2Z.id i) at 1.
  rewrite (unread_bytes_lookup s' buf) by (auto; lia).
  replace (Z.to_nat n + i)%nat with (Z.to_nat (n + Z.of_nat i)) by lia.
  rewrite (unread_bytes_lookup s buf) by (auto; lia).
  cbn [s' m_LinearBufferReadPosition m_BufferLength].
  do 3 f_equal. lia.
Qed.

Lemma Put_source_fits len off pBytes count :
  0 <= count -> off + count <= len ->
  Put_source len off pBytes count = take (Z.to_nat count) pBytes.
Proof.
  intros Hcount Hfit. unfold Put_source.
  rewrite Z.min_l, Z.sub_diag by lia. apply app_nil_r.
Qed.

Lemma Put_source_crossing len off pBytes count :
  len < off + count ->
  Put_source len off pBytes count =
  take (Z.to_nat (len - off)) pBytes ++ take (Z.to_nat (count - (len - off))) pBytes.
Proof. intros Hcross. unfold Put_source. rewrite Z.min_r by lia. reflexivity. Qed.

(** A [Put] that is neither rejected nor empty: its status and the
    positions it leaves. *)
Lemma Put_positions s pBytes count :
  well_formed s ->
  0 < count <= m_BufferLength s ->
  m_LinearBufferWritePosition s + count < two64 ->
  exists s',
    Put pBytes count s =
      Ret (if m_BufferLength s <? unread s + count
           then STATUS_BUFFER_OVERFLOW else STATUS_SUCCESS, s') /\
    well_formed s' /\
    m_BufferLength s' = m_BufferLength s /\
    m_LinearBufferReadPosition s' = Put_ReadPosition count s /\
    m_LinearBufferWritePosition s' = m_LinearBufferWritePosition s + count.
Proof.
  intros Hwf Hcount Hw.
  assert (Hc64 : is_u64 count) by (destruct Hwf; u64).
  destruct (Put_total s pBytes count Hwf Hc64 Hw) as (st & s' & Hput).
  pose proof (Put_well_formed _ _ _ _ _ Hwf Hc64 Hw Hput) as Hwf'.
  pose proof (wf_storage s Hwf) as (buf & Hbuf & Hblen).
  rewrite (Put_returns s buf) in Hput by (auto; destruct Hwf; u64).
  injection Hput as <- <-.
  eexists. split; [apply (Put_returns s buf); auto; destruct Hwf; u64|].
  split; [exact Hwf'|]. repeat split.
Qed.

(** X1. A [Put] that fits in the free space and ends before the end of the
    storage appends its bytes to the unread bytes. *)
Theorem Put_appends (s : RingBuffer) (pBytes : list byte) (count : Z) :
  well_formed s ->
  0 < count -> count <= Z.of_nat (length pBytes) ->
  m_LinearBufferWritePosition s + count < two64 ->
  unread s + count <= m_BufferLength s ->
  m_LinearBufferWritePosition s mod m_BufferLength s + count <= m_BufferLength s ->
  exists s',
    Put pBytes count s = Ret (STATUS_SUCCESS, s') /\
    m_LinearBufferReadPosition s' = m_LinearBufferReadPosition s /\
    m_LinearBufferWritePosition s' = m_LinearBufferWritePosition s + count /\
    unread_bytes s' = unread_bytes s ++ take (Z.to_nat count) pBytes.
Proof.
  intros Hwf Hcount Hsrc Hw Hroom Hfit.
  assert (Hlen : count <= m_BufferLength s)
    by (destruct Hwf; unfold unread in *; lia).
  destruct (Put_positions s pBytes count Hwf) as (s' & Hput & _ & _ & Hr' & Hw');
    [lia | exact Hw |].
  rewrite (proj2 (Z.ltb_ge _ _)) in Hput by lia.
  assert (Hr : m_LinearBufferReadPosition s' = m_LinearBufferReadPosition s).
  { rewrite Hr'. unfold Put_ReadPosition, unread in *.
    rewrite (proj2 (Z.ltb_ge _ _)) by lia. reflexivity. }
  exists s'. split; [exact Hput|]. split; [exact Hr|]. split; [exact Hw'|].
  rewrite (Put_unread_bytes s pBytes count _ s' Hwf ltac:(lia) Hsrc Hw Hput).
  rewrite Hr, Z.sub_diag, Put_source_fits by lia. reflexivity.
Qed.

Lemma Put_appends_witness :
  exists s',
    Put [x06; x07] 2 wrapped4 = Ret (STATUS_SUCCESS, s') /\
    m_LinearBufferReadPosition s' = m_LinearBufferReadPosition wrapped4 /\
    m_LinearBufferWritePosition s' = m_LinearBufferWritePosition wrapped4 + 2 /\
    unread_bytes s' = unread_bytes wrapped4 ++ take (Z.to_nat 2) [x06; x07].
Proof.
  apply (Put_appends wrapped4 [x06; x07] 2).
  - well_formed_here.
  - reflexivity.
  - vm_compute. discriminate.
  - reflexivity.
  - vm_compute. discriminate.
  - vm_compute. discriminate.
Defined.

(** X2. A [Put] that overruns and ends before the end of the storage leaves
    unread the last [capacity - 1] bytes of what was unread followed by the
    new bytes. *)
Theorem Put_overrun_keeps_newest (s : RingBuffer) (pBytes : list byte) (count : Z) :
  well_formed s ->
  0 < count <= m_BufferLength s -> count <= Z.of_nat (length pBytes) ->
  m_LinearBufferWritePosition s + count < two64 ->
  m_BufferLength s < unread s + count ->
  m_LinearBufferWritePosition s mod m_BufferLength s + count <= m_BufferLength s ->
  exists s',
    Put pBytes count s = Ret (STATUS_BUFFER_OVERFLOW, s') /\
    unread_bytes s' =
      drop (Z.to_nat (unread s + count - (m_BufferLength s - 1)))
        (unread_bytes s ++ take (Z.to_nat count) pBytes) /\
    Z.of_nat (length (unread_bytes s')) = m_BufferLength s - 1.
Proof.
  intros Hwf Hcount Hsrc Hw Hover Hfit.
  destruct (Put_positions s pBytes count Hwf Hcount Hw)
    as (s' & Hput & Hwf' & Hlen' & Hr' & Hw').
  rewrite (proj2 (Z.ltb_lt _ _)) in Hput by lia.
  assert (Hr : m_LinearBufferReadPosition s' - m_LinearBufferReadPosition s =
               unread s + count - (m_BufferLength s - 1)).
  { rewrite Hr'. unfold Put_ReadPosition, unread in *.
    rewrite (proj2 (Z.ltb_lt _ _)) by lia. lia. }
  exists s'. split; [exact Hput|]. split.
  - rewrite (Put_unread_bytes s pBytes count _ s' Hwf ltac:(lia) Hsrc Hw Hput).
    rewrite Hr, Put_source_fits by lia. reflexivity.
  - rewrite (unread_bytes_length s' Hwf'). unfold unread in *. lia.
Qed.

Lemma Put_overrun_keeps_newest_witness :
  exists s',
    Put (sample 100 10) 10 full100 = Ret (STATUS_BUFFER_OVERFLOW, s') /\
    unread_bytes s' =
      drop (Z.to_nat (unread full100 + 10 - (m_BufferLength full100 - 1)))
        (unread_bytes full100 ++ take (Z.to_nat 10) (sample 100 10)) /\
    Z.of_nat (length (unread_bytes s')) = m_BufferLength full100 - 1.
Proof.
  apply (Put_overrun_keeps_newest full100 (sample 100 10) 10).
  - well_formed_here.
  - vm_compute. split; [reflexivity | discriminate].
  - vm_compute. discriminate.
  - reflexivity.
  - reflexivity.
  - vm_compute. discriminate.
Defined.

(** X3. A [Put] that fits in the free space and reaches beyond the end of
    the storage appends the bytes of the source that fit before the end,
    and then, for the rest of the count, the bytes of the source from its
    start again. *)
Theorem Put_crossing_end (s : RingBuffer) (pBytes : list byte) (count : Z) :
  well_formed s ->
  0 < count -> count <= Z.of_nat (length pBytes) ->
  m_LinearBufferWritePosition s + count < two64 ->
  unread s + count <= m_BufferLength s ->
  m_BufferLength s < m_LinearBufferWritePosition s mod m_BufferLength s + count ->
  exists s',
    Put pBytes count s = Ret (STATUS_SUCCESS, s') /\
    unread_bytes s' =
      unread_bytes s ++
      take (Z.to_nat (m_BufferLength s -
                      m_LinearBufferWritePosition s mod m_BufferLength s)) pBytes ++
      take (Z.to_nat (count - (m_BufferLength s -
                      m_LinearBufferWritePosition s mod m_BufferLength s))) pBytes.
Proof.
  intros Hwf Hcount Hsrc Hw Hroom Hcross.
  assert (Hlen : count <= m_BufferLength s)
    by (destruct Hwf; unfold unread in *; lia).
  destruct (Put_positions s pBytes count Hwf) as (s' & Hput & _ & _ & Hr' & Hw');
    [lia | exact Hw |].
  rewrite (proj2 (Z.ltb_ge _ _)) in Hput by lia.
  assert (Hr : m_LinearBufferReadPosition s' = m_LinearBufferReadPosition s).
  { rewrite Hr'. unfold Put_ReadPosition, unread in *.
    rewrite (proj2 (Z.ltb_ge _ _)) by lia. reflexivity. }
  exists s'. split; [exact Hput|].
  rewrite (Put_unread_bytes s pBytes count _ s' Hwf ltac:(lia) Hsrc Hw Hput).
  rewrite Hr, Z.sub_diag, Put_source_crossing by lia. reflexivity.
Qed.

Lemma Put_crossing_end_witness :
  exists s',
    Put (sample 4 3) 3 drained4 = Ret (STATUS_SUCCESS, s') /\
    unread_bytes s' =
      unread_bytes drained4 ++
      take (Z.to_nat (m_BufferLength drained4 -
                      m_LinearBufferWritePosition drained4 mod m_BufferLength drained4))
        (sample 4 3) ++
      take (Z.to_nat (3 - (m_BufferLength drained4 -
                      m_LinearBufferWritePosition drained4 mod m_BufferLength drained4)))
        (sample 4 3).
Proof.
  apply (Put_crossing_end drained4 (sample 4 3) 3).
  - well_formed_here.
  - reflexivity.
  - vm_compute. discriminate.
  - reflexivity.
  - vm_compute. discriminate.
  - reflexivity.
Defined.

(** [Take] through the open gate: what it leaves, with the target in terms
    of the unread bytes. *)
Lemma Take_effect s pTarget count readCount :
  well_formed s -> m_IsFilling s = false ->
  is_u64 count -> count <= Z.of_nat (length pTarget) ->
  exists res s',
    Take pTarget count readCount s = Ret (res, s') /\
    well_formed s' /\
    take_status res = STATUS_SUCCESS /\
    take_target res =
      take (Z.to_nat (Z.min count (unread s))) (unread_bytes s) ++
      drop (Z.to_nat (Z.min count (unread s))) pTarget /\
    take_readCount res =
      match readCount with
      | Some _ => Some (Z.min count (unread s))
      | None => None
      end /\
    unread s' = unread s - Z.min count (unread s) /\
    m_BufferLength s' = m_BufferLength s /\
    m_IsFilling s' = (unread s - Z.min count (unread s) =? 0) /\
    unread_bytes s' = drop (Z.to_nat (Z.min count (unread s))) (unread_bytes s) /\
    m_LinearBufferReadPosition s' =
      m_LinearBufferReadPosition s + Z.min count (unread s).
Proof.
  intros Hwf Hgate Hcount Hroom.
  destruct (Take_total s pTarget count readCount Hwf Hcount) as (res & s' & Htake).
  pose proof (Take_well_formed _ _ _ _ _ _ Hwf Hcount Htake) as Hwf'.
  pose proof (Take_unread_bytes _ _ _ _ _ _ Hwf Hgate Hcount Htake) as Hstream.
  pose proof (wf_open s Hwf Hgate) as Hpos.
  pose proof (wf_storage s Hwf) as (buf & Hbuf & Hblen).
  pose proof (wf_read s Hwf) as Hr. pose proof (wf_order s Hwf) as Hrw.
  pose proof (wf_unread s Hwf) as Hun. pose proof (wf_write s Hwf) as Hw64.
  pose proof (wf_length s Hwf) as Hlen.
  exists res, s'. split; [exact Htake|]. split; [exact Hwf'|].
  rewrite (Take_returns s buf) in Htake by (auto; try apply Hwf; u64).
  injection Htake as <- <-. cbn [take_status take_target take_readCount].
  split; [reflexivity|]. split.
  { apply Take_image_unread; auto; unfold unread in *; u64. }
  split; [reflexivity|]. split; [unfold unread; cbn; lia|].
  split; [reflexivity|]. split; [reflexivity|]. split; [exact Hstream | reflexivity].
Qed.

(** X4. What [Take] delivers and what it leaves unread are, together, what
    was unread: no byte is lost, repeated or reordered, wherever the unread
    bytes lie in the storage. *)
Theorem Take_consumes_prefix (s : RingBuffer) (pTarget : list byte) (count : Z)
  (readCount : option Z) :
  well_formed s -> m_IsFilling s = false ->
  is_u64 count -> count <= Z.of_nat (length pTarget) ->
  exists res s',
    Take pTarget count readCount s = Ret (res, s') /\
    take (Z.to_nat (Z.min count (unread s))) (take_target res) ++ unread_bytes s' =
      unread_bytes s /\
    unread s' = unread s - Z.min count (unread s).
Proof.
  intros Hwf Hgate Hcount Hroom.
  destruct (Take_effect s pTarget count readCount Hwf Hgate Hcount Hroom)
    as (res & s' & Htake & _ & _ & Htarget & _ & Hu' & _ & _ & Hstream & _).
  pose proof (unread_bytes_length s Hwf) as Hlen.
  pose proof (wf_order s Hwf) as Hrw.
  exists res, s'. split; [exact Htake|]. split; [|exact Hu'].
  rewrite Htarget, Hstream.
  rewrite take_app_le by (rewrite length_take; unfold unread in *; u64).
  rewrite take_take, Nat.min_id. apply take_drop.
Qed.

Lemma Take_consumes_prefix_witness :
  exists res s',
    Take (pool_block 3) 3 (Some 0) wrapped4_open = Ret (res, s') /\
    take (Z.to_nat (Z.min 3 (unread wrapped4_open))) (take_target res) ++
      unread_bytes s' = unread_bytes wrapped4_open /\
    unread s' = unread wrapped4_open - Z.min 3 (unread wrapped4_open).
Proof.
  apply (Take_consumes_prefix wrapped4_open (pool_block 3) 3 (Some 0)).
  - well_formed_here.
  - reflexivity.
  - split; [discriminate | reflexivity].
  - vm_compute. discriminate.
Defined.

(** X5. Round trip.  On a buffer with nothing unread, a [Put] of more than
    half the capacity that ends before the end of the storage, followed by
    a [Take] of the same count, delivers the bytes that were put and leaves
    the buffer empty and filling again. *)
Theorem Put_Take_round_trip (s : RingBuffer) (pBytes pTarget : list byte)
  (count : Z) (readCount : option Z) :
  well_formed s -> unread s = 0 -> m_IsFilling s = true ->
  m_BufferLength s / 2 < count ->
  count <= Z.of_nat (length pBytes) -> count <= Z.of_nat (length pTarget) ->
  m_LinearBufferWritePosition s + count < two64 ->
  m_LinearBufferWritePosition s mod m_BufferLength s + count <= m_BufferLength s ->
  exists s1 res s2,
    Put pBytes count s = Ret (STATUS_SUCCESS, s1) /\
    Take pTarget count readCount s1 = Ret (res, s2) /\
    take_status res = STATUS_SUCCESS /\
    take (Z.to_nat count) (take_target res) = take (Z.to_nat count) pBytes /\
    unread s2 = 0 /\
    m_IsFilling s2 = true.
Proof.
  intros Hwf Hempty Hfill Hhalf Hsrc Hroom Hw Hfit.
  pose proof (wf_length s Hwf) as Hlen.
  assert (Hhalf0 : 0 <= m_BufferLength s / 2) by (apply Z.div_pos; lia).
  assert (Hmod : 0 <= m_LinearBufferWritePosition s mod m_BufferLength s).
  { destruct (Z.eq_dec (m_BufferLength s) 0) as [Hz | Hnz].
    - pose proof (wf_read s Hwf). pose proof (wf_order s Hwf).
      rewrite Hz in *. change (0 / 2) with 0 in *. rewrite Z.mod_0_r in Hfit. lia.
    - apply Z.mod_pos_bound. lia. }
  assert (Hcount : 0 < count <= m_BufferLength s) by lia.
  assert (Hc64 : is_u64 count) by u64.
  destruct (Put_positions s pBytes count Hwf Hcount Hw)
    as (s1 & Hput & Hwf1 & Hlen1 & Hr1 & Hw1).
  rewrite (proj2 (Z.ltb_ge _ _)) in Hput by lia.
  assert (Hr : m_LinearBufferReadPosition s1 = m_LinearBufferReadPosition s).
  { rewrite Hr1. unfold Put_ReadPosition, unread in *.
    rewrite (proj2 (Z.ltb_ge _ _)) by lia. reflexivity. }
  assert (Hu1 : unread s1 = count) by (unfold unread in *; lia).
  pose proof (Put_gate _ _ _ _ _ Hwf Hc64 Hw Hput) as Hg.
  rewrite Hu1, (proj2 (Z.ltb_lt _ _)) in Hg by lia.
  pose proof (Put_unread_bytes s pBytes count _ s1 Hwf Hcount Hsrc Hw Hput) as Hstream.
  rewrite Hr, Z.sub_diag, Put_source_fits in Hstream by lia.
  pose proof (unread_bytes_length s Hwf) as Hlen0.
  assert (Hnil : unread_bytes s = []) by (apply length_zero_iff_nil; lia).
  rewrite Hnil, app_nil_l in Hstream.
  change (Z.to_nat 0) with 0%nat in Hstream. rewrite drop_0 in Hstream.
  destruct (Take_effect s1 pTarget count readCount Hwf1 Hg Hc64 Hroom)
    as (res & s2 & Htake & _ & Hst & Htarget & _ & Hu2 & _ & Hfill2 & _ & _).
  rewrite Hu1, Z.min_id in *. rewrite Z.sub_diag in *.
  exists s1, res, s2. split; [exact Hput|]. split; [exact Htake|].
  split; [exact Hst|]. split; [|split; [exact Hu2 | exact Hfill2]].
  rewrite Htarget, Hstream, take_take, Nat.min_id.
  rewrite take_app_le by (rewrite length_take; lia).
  rewrite take_take, Nat.min_id. reflexivity.
Qed.

Lemma Put_Take_round_trip_witness :
  exists s1 res s2,
    Put (sample 4 3) 3 (ready 4) = Ret (STATUS_SUCCESS, s1) /\
    Take (pool_block 3) 3 (Some 0) s1 = Ret (res, s2) /\
    take_status res = STATUS_SUCCESS /\
    take (Z.to_nat 3) (take_target res) = take (Z.to_nat 3) (sample 4 3) /\
    unread s2 = 0 /\
    m_IsFilling s2 = true.
Proof.
  apply (Put_Take_round_trip (ready 4) (sample 4 3) (pool_block 3) 3 (Some 0)).
  - well_formed_here.
  - reflexivity.
  - reflexivity.
  - reflexivity.
  - vm_compute. discriminate.
  - vm_compute. discriminate.
  - reflexivity.
  - vm_compute. discriminate.
Defined.

(** X6. Two calls of [Take] deliver what one call for the sum of the counts
    delivers, when the first one leaves something unread. *)
Theorem Take_twice (s : RingBuffer) (pTarget1 pTarget2 : list byte) (a b : Z)
  (readCount : option Z) :
  well_formed s -> m_IsFilling s = false ->
  0 <= a < unread s -> is_u64 b ->
  a <= Z.of_nat (length pTarget1) -> b <= Z.of_nat (length pTarget2) ->
  exists res1 s1 res2 s2,
    Take pTarget1 a readCount s = Ret (res1, s1) /\
    Take pTarget2 b readCount s1 = Ret (res2, s2) /\
    take_status res1 = STATUS_SUCCESS /\ take_status res2 = STATUS_SUCCESS /\
    take (Z.to_nat a) (take_target res1) ++
    take (Z.to_nat (Z.min b (unread s - a))) (take_target res2) =
      take (Z.to_nat (Z.min (a + b) (unread s))) (unread_bytes s) /\
    unread s2 = unread s - Z.min (a + b) (unread s).
Proof.
  intros Hwf Hgate Ha Hb Hroom1 Hroom2.
  pose proof (wf_unread s Hwf) as Hun. pose proof (wf_length s Hwf) as Hlen.
  pose proof (unread_bytes_length s Hwf) as Hstream.
  assert (Ha64 : is_u64 a) by u64.
  destruct (Take_effect s pTarget1 a readCount Hwf Hgate Ha64 Hroom1)
    as (res1 & s1 & Htake1 & Hwf1 & Hst1 & Htarget1 & _ & Hu1 & _ & Hfill1 & Hstream1 & _).
  rewrite Z.min_l in * by lia.
  assert (Hgate1 : m_IsFilling s1 = false)
    by (rewrite Hfill1; apply Z.eqb_neq; lia).
  destruct (Take_effect s1 pTarget2 b readCount Hwf1 Hgate1 Hb Hroom2)
    as (res2 & s2 & Htake2 & _ & Hst2 & Htarget2 & _ & Hu2 & _ & _ & _ & _).
  rewrite Hu1 in *.
  exists res1, s1, res2, s2.
  split; [exact Htake1|]. split; [exact Htake2|].
  split; [exact Hst1|]. split; [exact Hst2|]. split; [|lia].
  rewrite Htarget1, Htarget2, Hstream1.
  rewrite !take_app_le by (rewrite length_take, ?length_drop; lia).
  rewrite !take_take, !Nat.min_id.
  replace (Z.to_nat (Z.min (a + b) (unread s)))
    with (Z.to_nat a + Z.to_nat (Z.min b (unread s - a)))%nat by u64.
  apply take_take_drop.
Qed.

Lemma Take_twice_witness :
  exists res1 s1 res2 s2,
    Take (pool_block 1) 1 (Some 0) wrapped4_open = Ret (res1, s1) /\
    Take (pool_block 2) 2 (Some 0) s1 = Ret (res2, s2) /\
    take_status res1 = STATUS_SUCCESS /\ take_status res2 = STATUS_SUCCESS /\
    take (Z.to_nat 1) (take_target res1) ++
    take (Z.to_nat (Z.min 2 (unread wrapped4_open - 1))) (take_target res2) =
      take (Z.to_nat (Z.min (1 + 2) (unread wrapped4_open)))
        (unread_bytes wrapped4_open) /\
    unread s2 = unread wrapped4_open - Z.min (1 + 2) (unread wrapped4_open).
Proof.
  apply (Take_twice wrapped4_open (pool_block 1) (pool_block 2) 1 2 (Some 0)).
  - well_formed_here.
  - reflexivity.
  - vm_compute. split; [discriminate | reflexivity].
  - split; [discriminate | reflexivity].
  - vm_compute. discriminate.
  - vm_compute. discriminate.
Defined.

(** X7. A [Take] that asks for everything that is unread, or more, empties
    the buffer and closes the gate: the next [Take] returns
    [STATUS_DEVICE_NOT_READY] and moves nothing. *)
Theorem Take_all_then_not_ready (s : RingBuffer) (pTarget pTarget2 : list byte)
  (count count2 : Z) (readCount : option Z) :
  well_formed s -> m_IsFilling s = false ->
  unread s <= count -> is_u64 count -> is_u64 count2 ->
  count <= Z.of_nat (length pTarget) ->
  exists res s1,
    Take pTarget count readCount s = Ret (res, s1) /\
    take (Z.to_nat (unread s)) (take_target res) = unread_bytes s /\
    unread s1 = 0 /\ GetAvailableBytes s1 = 0 /\
    Take pTarget2 count2 readCount s1 =
      Ret (mkTakeResult STATUS_DEVICE_NOT_READY pTarget2
             (match readCount with Some _ => Some 0 | None => None end), s1).
Proof.
  intros Hwf Hgate Hall Hcount Hcount2 Hroom.
  pose proof (unread_bytes_length s Hwf) as Hstream.
  pose proof (wf_order s Hwf) as Hrw.
  destruct (Take_effect s pTarget count readCount Hwf Hgate Hcount Hroom)
    as (res & s1 & Htake & Hwf1 & _ & Htarget & _ & Hu1 & _ & Hfill1 & _ & _).
  rewrite Z.min_r in * by lia. rewrite Z.sub_diag in *.
  exists res, s1. split; [exact Htake|]. split; [|split; [exact Hu1|split]].
  - rewrite Htarget, take_app_le by (rewrite length_take; unfold unread in *; lia).
    rewrite take_take, Nat.min_id. apply take_ge. unfold unread in *. lia.
  - unfold GetAvailableBytes. rewrite Hfill1. reflexivity.
  - apply Take_filling; [apply Hwf1 | exact Hfill1].
Qed.

Lemma Take_all_then_not_ready_witness :
  exists res s1,
    Take (pool_block 80) 80 (Some 0) open60 = Ret (res, s1) /\
    take (Z.to_nat (unread open60)) (take_target res) = unread_bytes open60 /\
    unread s1 = 0 /\ GetAvailableBytes s1 = 0 /\
    Take (pool_block 5) 5 (Some 0) s1 =
      Ret (mkTakeResult STATUS_DEVICE_NOT_READY (pool_block 5) (Some 0), s1).
Proof.
  apply (Take_all_then_not_ready open60 (pool_block 80) (pool_block 5) 80 5 (Some 0)).
  - well_formed_here.
  - reflexivity.
  - vm_compute. discriminate.
  - split; [discriminate | reflexivity].
  - split; [discriminate | reflexivity].
  - vm_compute. discriminate.
Defined.

(** X8. First in, first out.  From any state of a buffer in use, through any
    sequence of calls of [Put] and [Take] in which no [Put] overruns and no
    [Put] reaches beyond the end of the storage: the bytes taken, followed
    by the bytes still unread, are the bytes that were unread followed by
    the bytes put, in their order. *)
Theorem fifo_smooth_runs (calls : list call) : forall s : RingBuffer,
  well_formed s ->
  smooth calls s ->
  exists taken s',
    run calls s = Ret (taken, s') /\
    taken ++ unread_bytes s' = unread_bytes s ++ put_stream calls.
Proof.
  induction calls as [|[pBytes | pTarget count readCount] rest IH];
    intros s Hwf Hsmooth; cbn [run put_stream smooth] in *.
  - exists [], s. rewrite !app_nil_r. auto.
  - destruct Hsmooth as (Hfit & Hrest).
    destruct (decide (pBytes = [])) as [-> | Hne].
    + cbn [length] in *. change (Z.of_nat 0) with 0 in *.
      rewrite Put_nothing in * by apply Hwf. fields. cbn [snd].
      apply (IH s Hwf). apply (Hrest STATUS_SUCCESS). reflexivity.
    + destruct (Hfit Hne) as (Hroom & Hend & Hw).
      assert (Hpos : 0 < Z.of_nat (length pBytes))
        by (destruct pBytes; [congruence | cbn [length]; lia]).
      assert (Hcount : 0 < Z.of_nat (length pBytes) <= m_BufferLength s)
        by (destruct Hwf; unfold unread in *; lia).
      destruct (Put_positions s pBytes _ Hwf Hcount Hw)
        as (s1 & Hput & Hwf1 & _ & Hr1 & _).
      assert (Hr : m_LinearBufferReadPosition s1 = m_LinearBufferReadPosition s).
      { rewrite Hr1. unfold Put_ReadPosition, unread in *.
        rewrite (proj2 (Z.ltb_ge _ _)) by lia. reflexivity. }
      pose proof (Put_unread_bytes s pBytes _ _ s1 Hwf Hcount ltac:(lia) Hw Hput)
        as Hstream.
      rewrite Hr, Z.sub_diag, Put_source_fits, Nat2Z.id, take_ge in Hstream by lia.
      change (Z.to_nat 0) with 0%nat in Hstream. rewrite drop_0 in Hstream.
      destruct (IH s1 Hwf1 (Hrest _ _ Hput)) as (taken & s' & Hrun & Hfifo).
      rewrite Hput. fields. cbn [snd].
      exists taken, s'. split; [exact Hrun|].
      rewrite Hfifo, Hstream, app_assoc. reflexivity.
  - destruct Hsmooth as (Hcount & Hroom & Hrest).
    destruct (m_IsFilling s) eqn:Hgate.
    + pose proof (Take_filling s pTarget count readCount (wf_lock s Hwf) Hgate) as Htake.
      destruct (IH s Hwf (Hrest _ _ Htake)) as (taken & s' & Hrun & Hfifo).
      rewrite Htake. fields. cbn [snd fst]. rewrite Hrun. fields. cbn [snd fst].
      eexists _, _. split; [reflexivity|].
      unfold taken_by. rewrite Z.sub_diag. exact Hfifo.
    + destruct (Take_effect s pTarget count readCount Hwf Hgate Hcount Hroom)
        as (res & s1 & Htake & Hwf1 & _ & Htarget & _ & _ & _ & _ & Hstream & Hr1).
      pose proof (unread_bytes_length s Hwf) as Hlen.
      pose proof (wf_order s Hwf) as Hrw.
      destruct (IH s1 Hwf1 (Hrest _ _ Htake)) as (taken & s' & Hrun & Hfifo).
      rewrite Htake. fields. cbn [snd fst]. rewrite Hrun. fields. cbn [snd fst].
      eexists _, _. split; [reflexivity|].
      rewrite <- app_assoc, Hfifo, app_assoc. f_equal.
      unfold taken_by. rewrite Hr1, Htarget, Hstream.
      replace (m_LinearBufferReadPosition s + Z.min count (unread s) -
               m_LinearBufferReadPosition s)
        with (Z.min count (unread s)) by lia.
      rewrite take_app_le by (rewrite length_take; unfold unread in *; u64).
      rewrite take_take, Nat.min_id. apply take_drop.
Qed.

Ltac smooth_here :=
  repeat match goal with
    | |- True => exact I
    | |- (_ <> _ -> _) /\ _ => split; [intros _; vm_compute; easy |]
    | |- is_u64 _ /\ _ =>
        split; [split; [discriminate | reflexivity] |];
        split; [vm_compute; discriminate |]
    | |- forall a b, _ = Ret (a, b) -> _ =>
        let H := fresh in
        intros ? ? H; vm_compute in H; injection H as <- <-
    end.

Lemma fifo_smooth_runs_witness :
  exists taken s',
    run smooth_run (ready 4) = Ret (taken, s') /\
    taken ++ unread_bytes s' = unread_bytes (ready 4) ++ put_stream smooth_run.
Proof.
  apply (fifo_smooth_runs smooth_run (ready 4)).
  - well_formed_here.
  - unfold smooth_run. cbn [smooth]. smooth_here.
Defined.

(** ** What the calls never change *)

Lemma Put_loop_length fuel : forall len pBytes buf off count written buf' n,
  Put_loop fuel len pBytes buf off count written = Some (buf', n) ->
  length buf' = length buf.
Proof.
  induction fuel as [|fuel IH]; intros len pBytes buf off count written buf' n;
    cbn [Put_loop]; destruct (count >? 0); try discriminate.
  - intros [= <- _]. reflexivity.
  - intros H. apply IH in H. rewrite H. apply RtlCopyMemory_length.
  - intros [= <- _]. reflexivity.
Qed.


(** X9. [Put] never resizes: whatever the state, a [Put] that returns leaves
    the capacity and the lock as they were, and a storage of the same
    size. *)
Theorem Put_keeps_capacity (s : RingBuffer) (pBytes : list byte) (count : Z)
  (st : NTSTATUS) (s' : RingBuffer) :
  Put pBytes count s = Ret (st, s') ->
  GetSize s' = GetSize s /\
  m_BufferLock s' = m_BufferLock s /\
  length <$> m_Buffer s' = length <$> m_Buffer s.
Proof.
  destruct s as [lock sto len fill r w]. unfold Put, GetSize; fields.
  destruct (count >? len); [intros [= _ <-]; auto|].
  destruct (count =? 0); [intros [= _ <-]; auto|].
  destruct (sub64 (add64 w count) r >? len); fields;
    (destruct (len =? 0); [discriminate|]);
    (destruct sto as [buf|]; [|discriminate]);
    (destruct (Put_loop _ _ _ _ _ _ _) as [[buf' written]|] eqn:Hloop;
       [|discriminate]);
    apply Put_loop_length in Hloop; fields;
    destruct (fill && _); intros [= _ <-]; fields; cbn [fmap option_fmap option_map];
    rewrite Hloop; auto.
Qed.

Lemma Put_keeps_capacity_witness :
  GetSize overrun1 = GetSize full1 /\
  m_BufferLock overrun1 = m_BufferLock full1 /\
  length <$> m_Buffer overrun1 = length <$> m_Buffer full1.
Proof.
  apply (Put_keeps_capacity full1 (sample 1 1) 1 STATUS_BUFFER_OVERFLOW overrun1).
  vm_compute. reflexivity.
Defined.



(** X11. The positions only grow: on a buffer in use, [Put] moves the write
    position forward by the count it accepts and the read position forward
    by the number of bytes it discards; [Take] moves the read position
    forward and leaves the write position. *)
Theorem positions_only_grow (s : RingBuffer) :
  well_formed s ->
  (forall pBytes count st s',
     is_u64 count -> m_LinearBufferWritePosition s + count < two64 ->
     Put pBytes count s = Ret (st, s') ->
     m_LinearBufferReadPosition s <= m_LinearBufferReadPosition s' /\
     m_LinearBufferWritePosition s <= m_LinearBufferWritePosition s' /\
     (st = STATUS_BUFFER_TOO_SMALL ->
      m_LinearBufferWritePosition s' = m_LinearBufferWritePosition s) /\
     (st <> STATUS_BUFFER_TOO_SMALL ->
      m_LinearBufferWritePosition s' = m_LinearBufferWritePosition s + count) /\
     (st <> STATUS_BUFFER_OVERFLOW ->
      m_LinearBufferReadPosition s' = m_LinearBufferReadPosition s)) /\
  (forall pTarget count readCount res s',
     is_u64 count ->
     Take pTarget count readCount s = Ret (res, s') ->
     m_LinearBufferReadPosition s <= m_LinearBufferReadPosition s' /\
     m_LinearBufferReadPosition s' <= m_LinearBufferWritePosition s /\
     m_LinearBufferWritePosition s' = m_LinearBufferWritePosition s).
Proof.
  intros Hwf. split.
  - intros pBytes count st s' Hcount Hw Hput.
    destruct (Z.lt_ge_cases (m_BufferLength s) count) as [Hbig | Hfit].
    { rewrite Put_too_small in Hput by exact Hbig. injection Hput as <- <-.
      repeat split; try lia; congruence. }
    destruct (Z.eq_dec count 0) as [-> | Hnz].
    { rewrite Put_nothing in Hput by apply Hwf. injection Hput as <- <-.
      repeat split; try lia; congruence. }
    destruct (Put_positions s pBytes count Hwf) as (s1 & Hput1 & _ & _ & Hr1 & Hw1);
      [u64 | exact Hw |].
    rewrite Hput1 in Hput. injection Hput as <- <-.
    pose proof (wf_unread s Hwf). pose proof (wf_length s Hwf).
    rewrite Hr1, Hw1. unfold Put_ReadPosition, unread in *.
    destruct (Z.ltb_spec (m_BufferLength s)
                (m_LinearBufferWritePosition s + count - m_LinearBufferReadPosition s));
      destruct (Z.ltb_spec (m_BufferLength s)
                (m_LinearBufferWritePosition s - m_LinearBufferReadPosition s + count));
      try lia; repeat split; try u64; try congruence; intros; try discriminate.
  - intros pTarget count readCount res s' Hcount Htake.
    destruct (m_IsFilling s) eqn:Hgate.
    { rewrite Take_filling in Htake by (auto; apply Hwf). injection Htake as _ <-.
      pose proof (wf_order s Hwf). lia. }
    pose proof (wf_open s Hwf Hgate) as Hpos.
    pose proof (wf_storage s Hwf) as (buf & Hbuf & Hblen).
    pose proof (wf_read s Hwf) as Hr. pose proof (wf_order s Hwf) as Hrw.
    pose proof (wf_unread s Hwf) as Hun. pose proof (wf_write s Hwf) as Hw64.
    pose proof (wf_length s Hwf) as Hlen.
    rewrite (Take_returns s buf) in Htake by (auto; try apply Hwf; u64).
    injection Htake as _ <-. unfold unread in *; fields. u64.
Qed.

Lemma positions_only_grow_witness :
  (forall pBytes count st s',
     is_u64 count -> m_LinearBufferWritePosition open60 + count < two64 ->
     Put pBytes count open60 = Ret (st, s') ->
     m_LinearBufferReadPosition open60 <= m_LinearBufferReadPosition s' /\
     m_LinearBufferWritePosition open60 <= m_LinearBufferWritePosition s' /\
     (st = STATUS_BUFFER_TOO_SMALL ->
      m_LinearBufferWritePosition s' = m_LinearBufferWritePosition open60) /\
     (st <> STATUS_BUFFER_TOO_SMALL ->
      m_LinearBufferWritePosition s' = m_LinearBufferWritePosition open60 + count) /\
     (st <> STATUS_BUFFER_OVERFLOW ->
      m_LinearBufferReadPosition s' = m_LinearBufferReadPosition open60)) /\
  (forall pTarget count readCount res s',
     is_u64 count ->
     Take pTarget count readCount open60 = Ret (res, s') ->
     m_LinearBufferReadPosition open60 <= m_LinearBufferReadPosition s' /\
     m_LinearBufferReadPosition s' <= m_LinearBufferWritePosition open60 /\
     m_LinearBufferWritePosition s' = m_LinearBufferWritePosition open60).
Proof.
  apply (positions_only_grow open60). well_formed_here.
Defined.

Lemma RtlZeroMemory_all buf n :
  Z.of_nat (length buf) = n ->
  RtlZeroMemory buf n = replicate (Z.to_nat n) x00.
Proof.
  intros Hlen. unfold RtlZeroMemory.
  rewrite <- (app_nil_r buf) at 1.
  rewrite list_inserts_0_r by (rewrite length_replicate; lia).
  apply app_nil_r.
Qed.

(** X12. [Clear] on a buffer in use, whatever it holds: the storage is all
    zero, the positions are 0 and the buffer is filling, with the capacity
    it had; nothing is available and [Take] returns
    [STATUS_DEVICE_NOT_READY]. *)
Theorem Clear_resets (s : RingBuffer) :
  well_formed s ->
  exists s',
    Clear s = Ret s' /\
    s' = mkRingBuffer (Some false)
           (Some (replicate (Z.to_nat (m_BufferLength s)) x00))
           (m_BufferLength s) true 0 0 /\
    well_formed s' /\
    GetSize s' = GetSize s /\
    GetAvailableBytes s' = 0 /\
    unread_bytes s' = [] /\
    (forall pTarget count readCount,
       Take pTarget count readCount s' =
       Ret (mkTakeResult STATUS_DEVICE_NOT_READY pTarget
              (match readCount with Some _ => Some 0 | None => None end), s')).
Proof.
  intros Hwf.
  pose proof (wf_storage s Hwf) as (buf & Hbuf & Hblen).
  pose proof (Clear_returns s buf (wf_lock s Hwf) Hbuf) as Hclear.
  rewrite RtlZeroMemory_all in Hclear by exact Hblen.
  eexists. split; [exact Hclear|]. split; [reflexivity|].
  split; [exact (Clear_well_formed _ _ Hwf Hclear)|].
  split; [reflexivity|]. split; [reflexivity|]. split; [reflexivity|].
  intros pTarget count readCount. apply Take_filling; reflexivity.
Qed.

Lemma Clear_resets_witness :
  exists s',
    Clear open60 = Ret s' /\
    s' = mkRingBuffer (Some false)
           (Some (replicate (Z.to_nat (m_BufferLength open60)) x00))
           (m_BufferLength open60) true 0 0 /\
    well_formed s' /\
    GetSize s' = GetSize open60 /\
    GetAvailableBytes s' = 0 /\
    unread_bytes s' = [] /\
    (forall pTarget count readCount,
       Take pTarget count readCount s' =
       Ret (mkTakeResult STATUS_DEVICE_NOT_READY pTarget
              (match readCount with Some _ => Some 0 | None => None end), s')).
Proof. apply (Clear_resets open60). well_formed_here. Defined.



(** X14. A first [Init] that fails, for want of a lock or of storage, returns
    [STATUS_INSUFFICIENT_RESOURCES], gives nothing back to the pool and
    leaves an object without storage and with capacity 0, on which a later
    [Init] that gets its storage succeeds. *)
Theorem Init_failure_then_retry (bufferSize : Z) (newLock : bool)
  (pool : option (list byte)) :
  newLock = false \/ pool = None ->
  exists s1,
    Init bufferSize newLock pool (RingBuffer_ctor None) =
      Ret (STATUS_INSUFFICIENT_RESOURCES, None, s1) /\
    m_Buffer s1 = None /\
    GetSize s1 = 0 /\
    GetAvailableBytes s1 = 0 /\
    (forall bufferSize' block,
       Init bufferSize' true (Some block) s1 =
       Ret (STATUS_SUCCESS, None,
            mkRingBuffer (Some false) (Some block) bufferSize' true 0 0)).
Proof.
  intros [-> | ->]; [|destruct newLock];
    (eexists; split; [reflexivity|]; repeat split).
Qed.

Lemma Init_failure_then_retry_witness :
  exists s1,
    Init 100 true None (RingBuffer_ctor None) =
      Ret (STATUS_INSUFFICIENT_RESOURCES, None, s1) /\
    m_Buffer s1 = None /\
    GetSize s1 = 0 /\
    GetAvailableBytes s1 = 0 /\
    (forall bufferSize' block,
       Init bufferSize' true (Some block) s1 =
       Ret (STATUS_SUCCESS, None,
            mkRingBuffer (Some false) (Some block) bufferSize' true 0 0)).
Proof. apply (Init_failure_then_retry 100 true None). right. reflexivity. Defined.

(** X15. [Init] on a buffer in use, when it gets its storage: the old block
    goes back to the pool, and the object is what a first [Init] with the
    same size and block leaves; nothing of the old positions, gate and
    content is kept. *)
Theorem Init_again (s : RingBuffer) (bufferSize : Z) (newLock : bool)
  (block : list byte) :
  well_formed s ->
  exists old s',
    m_Buffer s = Some old /\
    Init bufferSize newLock (Some block) s = Ret (STATUS_SUCCESS, Some old, s') /\
    Init bufferSize true (Some block) (RingBuffer_ctor None) =
      Ret (STATUS_SUCCESS, None, s') /\
    GetSize s' = bufferSize /\
    GetAvailableBytes s' = 0 /\
    unread s' = 0 /\
    (is_u64 bufferSize -> Z.of_nat (length block) = bufferSize -> reachable s').
Proof.
  intros Hwf.
  pose proof (wf_storage s Hwf) as (old & Hold & _).
  assert (Hlock : lock_available newLock s) by (left; apply Hwf).
  pose proof (Init_succeeds s bufferSize newLock block Hlock) as Hinit.
  rewrite Hold in Hinit.
  eexists _, _. split; [exact Hold|]. split; [exact Hinit|].
  split; [reflexivity|]. repeat split.
  intros Hsize Hblock.
  exact (reach_Init s bufferSize newLock block (Some old) _ Hsize Hblock Hinit).
Qed.

Lemma Init_again_witness :
  exists old s',
    m_Buffer open60 = Some old /\
    Init 4 false (Some (pool_block 4)) open60 = Ret (STATUS_SUCCESS, Some old, s') /\
    Init 4 true (Some (pool_block 4)) (RingBuffer_ctor None) =
      Ret (STATUS_SUCCESS, None, s') /\
    GetSize s' = 4 /\
    GetAvailableBytes s' = 0 /\
    unread s' = 0 /\
    (is_u64 4 -> Z.of_nat (length (pool_block 4)) = 4 -> reachable s').
Proof. apply (Init_again open60 4 false (pool_block 4)). well_formed_here. Defined.

(** X16. Before [Init].  On the object the constructor leaves, [Put] touches
    nothing: it returns [STATUS_SUCCESS] for the count 0 and
    [STATUS_BUFFER_TOO_SMALL] for any other; the size and the available
    bytes are 0.  With the lock pointer [NULL], [Take] and [Clear] fault on
    the lock, and the destructor has nothing to do. *)
Theorem before_Init (lock0 : option bool) (pBytes pTarget : list byte) (count : Z)
  (readCount : option Z) :
  is_u64 count ->
  Put pBytes count (RingBuffer_ctor lock0) =
    Ret (if count =? 0 then STATUS_SUCCESS else STATUS_BUFFER_TOO_SMALL,
         RingBuffer_ctor lock0) /\
  GetSize (RingBuffer_ctor lock0) = 0 /\
  GetAvailableBytes (RingBuffer_ctor lock0) = 0 /\
  Take pTarget count readCount (RingBuffer_ctor None) = Fault /\
  Clear (RingBuffer_ctor None) = Fault /\
  RingBuffer_dtor (RingBuffer_ctor None) = Ret (RingBuffer_ctor None).
Proof.
  intros Hcount. repeat split.
  destruct (Z.eqb_spec count 0) as [-> | Hnz].
  - reflexivity.
  - apply Put_too_small. cbn. u64.
Qed.

Lemma before_Init_witness :
  Put (sample 0 5) 5 (RingBuffer_ctor None) =
    Ret (if 5 =? 0 then STATUS_SUCCESS else STATUS_BUFFER_TOO_SMALL,
         RingBuffer_ctor None) /\
  GetSize (RingBuffer_ctor None) = 0 /\
  GetAvailableBytes (RingBuffer_ctor None) = 0 /\
  Take (pool_block 5) 5 (Some 0) (RingBuffer_ctor None) = Fault /\
  Clear (RingBuffer_ctor None) = Fault /\
  RingBuffer_dtor (RingBuffer_ctor None) = Ret (RingBuffer_ctor None).
Proof.
  apply (before_Init None (sample 0 5) (pool_block 5) 5 (Some 0)).
  split; [discriminate | reflexivity].
Defined.

(** X17. No call returns with the lock held: whatever the state, [Take] and
    [Clear] return with the lock free, on their early returns too, and
    [Init] returns with the lock free or, when it could not allocate one,
    without a lock. *)
Theorem lock_free_on_return (s : RingBuffer) :
  (forall pTarget count readCount res s',
     Take pTarget count readCount s = Ret (res, s') ->
     m_BufferLock s' = Some false) /\
  (forall s', Clear s = Ret s' -> m_BufferLock s' = Some false) /\
  (forall bufferSize newLock pool st freed s',
     Init bufferSize newLock pool s = Ret (st, freed, s') ->
     m_BufferLock s' = Some false \/
     (m_BufferLock s' = None /\ st = STATUS_INSUFFICIENT_RESOURCES /\ s' = s)).
Proof.
  split; [|split].
  - intros pTarget count readCount res s' Htake.
    destruct s as [[[|]|] sto len fill r w];
      unfold Take, Take_copy, KeAcquireSpinLock in Htake; fields; try discriminate.
    destruct fill; [injection Htake as _ <-; reflexivity|].
    destruct (len =? 0); [discriminate|].
    assert (Hend : forall target n,
              Take_commit target n readCount
                (mkRingBuffer (Some true) sto len false r w) = Ret (res, s') ->
              m_BufferLock s' = Some false).
    { intros target n. unfold Take_commit, KeReleaseSpinLock; fields.
      destruct (_ =? 0); intros [= _ <-]; reflexivity. }
    destruct (_ >? 0); [|fields; eapply Hend; exact Htake].
    destruct sto as [buf|]; [|discriminate].
    destruct (Take_loop _ _ _ _ _ _ _) as [[target n]|]; [|discriminate].
    fields. eapply Hend. exact Htake.
  - intros s'.
    destruct s as [[[|]|] [buf|] len fill r w]; cbn; try discriminate.
    + intros [= <-]. reflexivity.
    + destruct (len =? 0); [|discriminate]. intros [= <-]. reflexivity.
  - intros bufferSize newLock pool st freed s'.
    destruct s as [[[|]|] [buf|] len fill r w], newLock, pool; cbn;
      try discriminate; intros [= <- <- <-]; auto.
Qed.

Lemma lock_free_on_return_witness :
  m_BufferLock drained100 = Some false.
Proof.
  apply (proj1 (lock_free_on_return open60) (pool_block 80) 80 (Some 0)
           taken60 drained100).
  vm_compute. reflexivity.
Defined.

(** X18. A [Put] that overruns returns [STATUS_BUFFER_OVERFLOW], which is not
    of error severity, moves the write position by the count and the read
    position to one byte more than the capacity requires: one byte less
    than the capacity is unread.  With a capacity of 3 or more the gate is
    open afterwards. *)
Theorem Put_overrun_positions (s : RingBuffer) (pBytes : list byte) (count : Z) :
  well_formed s ->
  0 < count <= m_BufferLength s ->
  m_LinearBufferWritePosition s + count < two64 ->
  m_BufferLength s < unread s + count ->
  exists s',
    Put pBytes count s = Ret (STATUS_BUFFER_OVERFLOW, s') /\
    NT_ERROR STATUS_BUFFER_OVERFLOW = false /\
    m_LinearBufferWritePosition s' = m_LinearBufferWritePosition s + count /\
    m_LinearBufferReadPosition s' - m_LinearBufferReadPosition s =
      unread s + count - m_BufferLength s + 1 /\
    unread s' = m_BufferLength s - 1 /\
    (3 <= m_BufferLength s ->
     m_IsFilling s' = false /\ GetAvailableBytes s' = m_BufferLength s - 1).
Proof.
  intros Hwf Hcount Hw Hover.
  assert (Hc64 : is_u64 count) by (destruct Hwf; u64).
  destruct (Put_positions s pBytes count Hwf Hcount Hw)
    as (s' & Hput & Hwf' & Hlen' & Hr' & Hw').
  rewrite (proj2 (Z.ltb_lt _ _)) in Hput by lia.
  assert (Hr : m_LinearBufferReadPosition s' =
               m_LinearBufferWritePosition s + count - m_BufferLength s + 1).
  { rewrite Hr'. unfold Put_ReadPosition, unread in *.
    rewrite (proj2 (Z.ltb_lt _ _)) by lia. reflexivity. }
  assert (Hu' : unread s' = m_BufferLength s - 1) by (unfold unread in *; lia).
  exists s'. split; [exact Hput|]. split; [reflexivity|]. split; [exact Hw'|].
  split; [unfold unread; lia|]. split; [exact Hu'|].
  intros Hcap.
  pose proof (Put_gate _ _ _ _ _ Hwf Hc64 Hw Hput) as Hg.
  assert (Hhalf : m_BufferLength s / 2 < m_BufferLength s - 1)
    by (apply Z.div_lt_upper_bound; lia).
  rewrite Hu', (proj2 (Z.ltb_lt _ _)) in Hg by exact Hhalf.
  split; [exact Hg|].
  unfold GetAvailableBytes. rewrite Hg, (unread_sub64 s' Hwf'). exact Hu'.
Qed.

Lemma Put_overrun_positions_witness :
  exists s',
    Put (sample 100 10) 10 full100 = Ret (STATUS_BUFFER_OVERFLOW, s') /\
    NT_ERROR STATUS_BUFFER_OVERFLOW = false /\
    m_LinearBufferWritePosition s' = m_LinearBufferWritePosition full100 + 10 /\
    m_LinearBufferReadPosition s' - m_LinearBufferReadPosition full100 =
      unread full100 + 10 - m_BufferLength full100 + 1 /\
    unread s' = m_BufferLength full100 - 1 /\
    (3 <= m_BufferLength full100 ->
     m_IsFilling s' = false /\ GetAvailableBytes s' = m_BufferLength full100 - 1).
Proof.
  apply (Put_overrun_positions full100 (sample 100 10) 10).
  - well_formed_here.
  - vm_compute. split; [reflexivity | discriminate].
  - reflexivity.
  - reflexivity.
Defined.

(** X19. The copy loops end.  With a capacity that is a [SIZE_T], [Put]
    returns or faults for every count and every state of the object, also
    one whose positions are out of order; with the lock free, so do [Take]
    and [Clear]. *)
Theorem calls_never_hang (s : RingBuffer) :
  is_u64 (m_BufferLength s) ->
  (forall pBytes count, is_u64 count -> Put pBytes count s <> Hang) /\
  (m_BufferLock s = Some false ->
   (forall pTarget count readCount,
      is_u64 count -> Take pTarget count readCount s <> Hang) /\
   Clear s <> Hang).
Proof.
  intros Hlen. split.
  - intros pBytes count Hcount. apply Put_terminates; assumption.
  - intros Hlock. split.
    + intros pTarget count readCount Hcount. apply Take_terminates; assumption.
    + destruct s as [lock [buf|] len fill r w]; fields; subst lock; cbn.
      * discriminate.
      * destruct (len =? 0); discriminate.
Qed.

Lemma calls_never_hang_witness :
  (forall pBytes count, is_u64 count -> Put pBytes count open60 <> Hang) /\
  (m_BufferLock open60 = Some false ->
   (forall pTarget count readCount,
      is_u64 count -> Take pTarget count readCount open60 <> Hang) /\
   Clear open60 <> Hang).
Proof.
  apply (calls_never_hang open60). split; [discriminate | reflexivity].
Defined.
